(** * h3: response wrapper, middleware router and servlet lifecycle

    A shallow embedding of the Go package [h3] (response.go, mux.go,
    server.go, servlet.go) and the properties of its specification.

    Conventions of the embedding.
    - A Go [error] interface value is an [option error]; [None] is [nil].
    - Go [int] and [int64] are 64-bit: values are [Z], and the addition
      to the [int64] byte counter is wrapped with [wrap64].
    - A Go [string] is a [string] (a sequence of 8-bit characters), a
      [[]byte] is a [list byte].
    - Objects the package only talks to through an interface (the underlying
      [http.ResponseWriter], a [Servlet], the [http.Server] transport engine)
      act on an abstract [World]; a method is a function from the world
      before the call to its results and the world after it.
    - [panic] is an explicit outcome. *)

From Stdlib Require Import ZArith Lia.
From Stdlib.Strings Require Import Byte Ascii String.
From stdpp Require Import base list strings relations.

Set Warnings "-register-all".
Open Scope Z_scope.

(** ** Go values shared by the three components *)

(** Two's complement wrap-around of a 64-bit signed integer. *)
Definition wrap64 (z : Z) : Z := (z + 2 ^ 63) mod 2 ^ 64 - 2 ^ 63.

Definition in_int64 (z : Z) : Prop := - 2 ^ 63 <= z < 2 ^ 63.

(** The sum of a list of integers, without wrap-around. *)
Definition total (bs : list Z) : Z := foldr Z.add 0 bs.

(** Error values.  [ErrNotSupported] and [ErrServerClosed] are the sentinels
    of net/http, [errorString] is what [errors.New] and a [fmt.Errorf]
    without [%w] build, [wrapError] what [fmt.Errorf] with [%w] builds and
    [AddrError] is [net.AddrError]. *)
Inductive error : Type :=
| ErrNotSupported
| ErrServerClosed
| errorString (msg : string)
| wrapError (msg : string) (err : error)
| AddrError (Err Addr : string).

(** [errors.Is e http.ErrNotSupported]: walks the chain of wrapped errors. *)
Fixpoint errors_Is_ErrNotSupported (e : error) : bool :=
  match e with
  | ErrNotSupported => true
  | wrapError _ e' => errors_Is_ErrNotSupported e'
  | _ => false
  end.

(** [errNotSupported()] of net/http: [fmt.Errorf("%w", ErrNotSupported)]. *)
Definition errNotSupported : error :=
  wrapError "feature not supported" ErrNotSupported.

Definition StatusOK : Z := 200.

(** The outcome of a call that may panic: it returns [a] in state [s], or
    panics with value [v], the state being [s] when the panic starts. *)
Inductive Outcome (S A : Type) : Type :=
| Return (a : A) (s : S)
| Panic (v : error) (s : S).
Arguments Return {S A} a s.
Arguments Panic {S A} v s.

(** The state of an outcome changed by [f]. *)
Definition on_state {S A : Type} (f : S -> S) (o : Outcome S A)
  : Outcome S A :=
  match o with
  | Return a s => Return a (f s)
  | Panic v s => Panic v (f s)
  end.

(** A [context.Context], as far as its deadline goes. *)
Inductive Ctx : Type :=
| Background
| WithCancel (parent : Ctx) (id : nat)
| WithDeadline (parent : Ctx) (d : Z).

Fixpoint Deadline (c : Ctx) : option Z :=
  match c with
  | Background => None
  | WithCancel parent _ => Deadline parent
  | WithDeadline parent d =>
      Some (match Deadline parent with
            | Some d' => Z.min d d'
            | None => d
            end)
  end.

(** [bytealg.IndexByteString] and [bytealg.LastIndexByteString]: the index
    of the first and of the last occurrence of [c] in [s], or -1. *)
Fixpoint IndexByteString (s : string) (c : ascii) : Z :=
  match s with
  | EmptyString => -1
  | String a s' =>
      if Ascii.eqb a c then 0
      else let i := IndexByteString s' c in
           if i <? 0 then -1 else i + 1
  end.

Fixpoint LastIndexByteString (s : string) (c : ascii) : Z :=
  match s with
  | EmptyString => -1
  | String a s' =>
      let i := LastIndexByteString s' c in
      if 0 <=? i then i + 1
      else if Ascii.eqb a c then 0 else -1
  end.

(** [s[lo:hi]] and [s[i]] for indices in range. *)
Definition slice (s : string) (lo hi : Z) : string :=
  String.substring (Z.to_nat lo) (Z.to_nat (hi - lo)) s.

Definition byte_at (s : string) (i : Z) : option ascii :=
  String.get (Z.to_nat i) s.

(** [net.SplitHostPort] of the Go standard library, which server.go calls
    to validate the listen address; transcribed from package net. *)
Definition SplitHostPort (hostport : string)
  : string * string * option error :=
  let missingPort := "missing port in address" in
  let tooManyColons := "too many colons in address" in
  let addrErr (why : string) : string * string * option error :=
    (""%string, ""%string, Some (AddrError why hostport)) in
  let len := Z.of_nat (String.length hostport) in
  let i := LastIndexByteString hostport ":" in
  if i <? 0 then addrErr missingPort
  else
    let bracketed : (string * string * option error) + (string * Z * Z) :=
      if bool_decide (byte_at hostport 0 = Some "["%char) then
        let end_ := IndexByteString hostport "]" in
        if end_ <? 0 then inl (addrErr "missing ']' in address")
        else if end_ + 1 =? len then inl (addrErr missingPort)
        else if end_ + 1 =? i then inr (slice hostport 1 end_, 1, end_ + 1)
        else if bool_decide (byte_at hostport (end_ + 1) = Some ":"%char)
        then inl (addrErr tooManyColons)
        else inl (addrErr missingPort)
      else
        let host := slice hostport 0 i in
        if 0 <=? IndexByteString host ":" then inl (addrErr tooManyColons)
        else inr (host, 0, 0) in
    match bracketed with
    | inl e => e
    | inr (host, j, k) =>
        if 0 <=? IndexByteString (slice hostport j len) "[" then
          addrErr "unexpected '[' in address"
        else if 0 <=? IndexByteString (slice hostport k len) "]" then
          addrErr "unexpected ']' in address"
        else (host, slice hostport (i + 1) len, None)
    end.

(** ** response.go: the capturing response wrapper *)

Module Response.
Section WithWorld.

(** [World]: everything behind the underlying writer (recorder buffers,
    connections).  [Conn], [ReadWriter] and [PushOptions] stand for
    [net.Conn], [*bufio.ReadWriter] and [*http.PushOptions]. *)
Context {World Conn ReadWriter PushOptions : Type}.

(** An [http.ResponseWriter] implementation.  [rw_T] is its dynamic type
    name (what [%T] prints).  The optional fields are the optional
    interfaces it implements: [FlushError() error], [http.Flusher],
    [http.Hijacker], [http.Pusher] and [Unwrap() http.ResponseWriter]. *)
Inductive ResponseWriter : Type := mkResponseWriter {
  rw_T : string;
  rw_WriteHeader : Z -> World -> World;
  rw_Write : list byte -> World -> (Z * option error) * World;
  rw_FlushError : option (World -> option error * World);
  rw_Flush : option (World -> World);
  rw_Hijack :
    option (World -> (option Conn * option ReadWriter * option error) * World);
  rw_Push : option (string -> PushOptions -> World -> option error * World);
  rw_Unwrap : option ResponseWriter
}.

(** The struct [response]; the embedded interface is the field
    [ResponseWriter_]. *)
Record response : Type := mkResponse {
  ResponseWriter_ : ResponseWriter;
  status : Z;
  size : Z;
  committed : bool
}.

(** The state a method of the wrapper runs in: the world behind the
    underlying writer and the lines written by the standard logger. *)
Record St : Type := mkSt {
  world : World;
  stdlog : list string
}.

Definition log_Printf (msg : string) (σ : St) : St :=
  mkSt (world σ) (stdlog σ ++ [msg]).

(** [NewResponse]: an argument that already is a [Response] is returned as
    it is ([inr]); any other writer ([inl]) is wrapped with status 200. *)
Definition NewResponse (w : ResponseWriter + response) : response :=
  match w with
  | inr r => r
  | inl w => mkResponse w StatusOK 0 false
  end.

Definition Status (r : response) : Z := status r.
Definition Size (r : response) : Z := size r.
Definition Committed (r : response) : bool := committed r.
Definition Unwrap (r : response) : ResponseWriter := ResponseWriter_ r.

Definition WriteHeader (code : Z) (r : response) (σ : St) : response * St :=
  if committed r then
    (r, log_Printf "attempt to write header after response committed" σ)
  else
    (mkResponse (ResponseWriter_ r) code (size r) true,
     mkSt (rw_WriteHeader (ResponseWriter_ r) code (world σ)) (stdlog σ)).

Definition Write (p : list byte) (r : response) (σ : St)
  : (Z * option error) * response * St :=
  let '(r1, σ1) :=
    if negb (committed r) then
      let r0 :=
        if status r =? 0
        then mkResponse (ResponseWriter_ r) StatusOK (size r) (committed r)
        else r in
      WriteHeader (status r0) r0 σ
    else (r, σ) in
  let '((n, err), w2) := rw_Write (ResponseWriter_ r1) p (world σ1) in
  ((n, err),
   mkResponse (ResponseWriter_ r1) (status r1) (wrap64 (size r1 + n))
     (committed r1),
   mkSt w2 (stdlog σ1)).

(** [http.ResponseController.Flush] (net/http, outside this package): the
    first of [FlushError], [Flush] and [Unwrap] that the writer implements
    decides; the loop follows [Unwrap]. *)
Fixpoint controller_Flush (rw : ResponseWriter) (w : World)
  : option error * World :=
  match rw with
  | mkResponseWriter _ _ _ (Some flushError) _ _ _ _ => flushError w
  | mkResponseWriter _ _ _ None (Some flush) _ _ _ => (None, flush w)
  | mkResponseWriter _ _ _ None None _ _ (Some rw') => controller_Flush rw' w
  | mkResponseWriter _ _ _ None None _ _ None => (Some errNotSupported, w)
  end.

(** [http.ResponseController.Hijack] (net/http). *)
Fixpoint controller_Hijack (rw : ResponseWriter) (w : World)
  : (option Conn * option ReadWriter * option error) * World :=
  match rw with
  | mkResponseWriter _ _ _ _ _ (Some hijack) _ _ => hijack w
  | mkResponseWriter _ _ _ _ _ None _ (Some rw') => controller_Hijack rw' w
  | mkResponseWriter _ _ _ _ _ None _ None =>
      ((None, None, Some errNotSupported), w)
  end.

Definition Hijack (r : response) (σ : St)
  : (option Conn * option ReadWriter * option error) * St :=
  let '(res, w') := controller_Hijack (ResponseWriter_ r) (world σ) in
  (res, mkSt w' (stdlog σ)).

Definition Flush (r : response) (σ : St) : Outcome St unit :=
  let '(err, w') := controller_Flush (ResponseWriter_ r) (world σ) in
  let σ' := mkSt w' (stdlog σ) in
  match err with
  | Some e =>
      if errors_Is_ErrNotSupported e then
        Panic (errorString
                 ("h3: response writer " +:+ rw_T (ResponseWriter_ r) +:+
                  " does not support flushing (http.Flusher interface)")) σ'
      else Return tt σ'
  | None => Return tt σ'
  end.

Definition Push (target : string) (opts : PushOptions) (r : response)
  (σ : St) : option error * St :=
  match rw_Push (ResponseWriter_ r) with
  | None =>
      (Some (errorString
               ("h3: response writer " +:+ rw_T (ResponseWriter_ r) +:+
                " does not support pushing (http.Pusher interface)")), σ)
  | Some push =>
      let '(err, w') := push target opts (world σ) in
      (err, mkSt w' (stdlog σ))
  end.

(** A handler body that calls [Write] once for each element of [ps], in
    order, and collects the results. *)
Fixpoint Writes (ps : list (list byte)) (r : response) (σ : St)
  : list (Z * option error) * response * St :=
  match ps with
  | [] => ([], r, σ)
  | p :: ps' =>
      let '(res, r1, σ1) := Write p r σ in
      let '(rs, r2, σ2) := Writes ps' r1 σ1 in
      (res :: rs, r2, σ2)
  end.

(** The same writes made on the underlying writer itself. *)
Fixpoint sink_Writes (w : ResponseWriter) (ps : list (list byte))
  (x : World) : list (Z * option error) * World :=
  match ps with
  | [] => ([], x)
  | p :: ps' =>
      let '(res, x1) := rw_Write w p x in
      let '(rs, x2) := sink_Writes w ps' x1 in
      (res :: rs, x2)
  end.

(** A handler body made of header-writes and body-writes. *)
Inductive op : Type :=
| op_WriteHeader (code : Z)
| op_Write (p : list byte).

Fixpoint run_ops (ops : list op) (r : response) (σ : St) : response * St :=
  match ops with
  | [] => (r, σ)
  | op_WriteHeader code :: ops' =>
      let '(r1, σ1) := WriteHeader code r σ in run_ops ops' r1 σ1
  | op_Write p :: ops' =>
      let '(_, r1, σ1) := Write p r σ in run_ops ops' r1 σ1
  end.

(** The writers [http.ResponseController] reaches from [rw] through
    [Unwrap]. *)
Fixpoint unwrap_chain (rw : ResponseWriter) : list ResponseWriter :=
  rw ::
  match rw with
  | mkResponseWriter _ _ _ _ _ _ _ (Some rw') => unwrap_chain rw'
  | mkResponseWriter _ _ _ _ _ _ _ None => []
  end.

(** What "the underlying writer supports" means: for flush and hijack,
    that [http.ResponseController] finds an implementation along
    [Unwrap]; for push, that the writer itself is an [http.Pusher]. *)
Definition implements_flush (w : ResponseWriter) : bool :=
  match rw_FlushError w, rw_Flush w with
  | None, None => false
  | _, _ => true
  end.

Definition implements_hijack (w : ResponseWriter) : bool :=
  match rw_Hijack w with
  | None => false
  | Some _ => true
  end.

Definition supports_flush (w : ResponseWriter) : bool :=
  existsb implements_flush (unwrap_chain w).

Definition supports_hijack (w : ResponseWriter) : bool :=
  existsb implements_hijack (unwrap_chain w).

Definition supports_push (w : ResponseWriter) : bool :=
  match rw_Push w with
  | None => false
  | Some _ => true
  end.

(** What a handler body asks for first: the status of its first
    operation when that is a header-write, 200 otherwise. *)
Definition first_status (ops : list op) : Z :=
  match ops with
  | op_WriteHeader code :: _ => code
  | _ => StatusOK
  end.

(** The bodies a handler body writes, in order, and the number of its
    header-writes. *)
Fixpoint bodies (ops : list op) : list (list byte) :=
  match ops with
  | [] => []
  | op_WriteHeader _ :: ops' => bodies ops'
  | op_Write p :: ops' => p :: bodies ops'
  end.

Fixpoint header_writes (ops : list op) : nat :=
  match ops with
  | [] => O
  | op_WriteHeader _ :: ops' => S (header_writes ops')
  | op_Write _ :: ops' => header_writes ops'
  end.

(** The line [WriteHeader] logs on a committed wrapper. *)
Definition late_header : string :=
  "attempt to write header after response committed".


End WithWorld.
Arguments ResponseWriter : clear implicits.
Arguments response : clear implicits.
Arguments St : clear implicits.
End Response.

(** The writers of response_test.go. *)
Module Doubles.
Import Response.

(** The state of an [httptest.ResponseRecorder] or of a
    [nonFlusherWriter]. *)
Record Recorder : Type := mkRecorder {
  Code : Z;
  Body : list byte;
  Flushed : bool;
  wroteHeader : bool
}.

Definition recorder_WriteHeader (code : Z) (x : Recorder) : Recorder :=
  if wroteHeader x then x else mkRecorder code (Body x) (Flushed x) true.

Definition recorder_Write (p : list byte) (x : Recorder)
  : (Z * option error) * Recorder :=
  let x := recorder_WriteHeader 200 x in
  ((Z.of_nat (length p), None),
   mkRecorder (Code x) (Body x ++ p) (Flushed x) (wroteHeader x)).

Definition recorder_Flush (x : Recorder) : Recorder :=
  let x := recorder_WriteHeader 200 x in
  mkRecorder (Code x) (Body x) true (wroteHeader x).

(** [httptest.NewRecorder()]: a flusher, neither hijacker nor pusher. *)
Definition NewRecorder : ResponseWriter Recorder unit unit unit :=
  mkResponseWriter "*httptest.ResponseRecorder"
    recorder_WriteHeader recorder_Write None (Some recorder_Flush) None None
    None.

(** [&nonFlusherWriter{}]: only the three methods of the interface. *)
Definition nonFlusherWriter : ResponseWriter Recorder unit unit unit :=
  mkResponseWriter "*h3.nonFlusherWriter"
    recorder_WriteHeader recorder_Write None None None None None.

Definition zero_Recorder : Recorder := mkRecorder 0 [] false false.

Definition hello : list byte := [x68; x65; x6c; x6c; x6f].

End Doubles.

(** Writers over a world of lines, each method writing the line that
    names it. *)
Module Probes.
Import Response.

Definition line (msg : string) (x : list string) : list string := x ++ [msg].

(** Only the three methods of [http.ResponseWriter]. *)
Definition plain : ResponseWriter (list string) unit unit unit :=
  mkResponseWriter "*plain" (fun _ => line "WriteHeader")
    (fun p x => ((Z.of_nat (length p), None), line "Write" x))
    None None None None None.

(** A flusher, hijacker and pusher. *)
Definition capable : ResponseWriter (list string) unit unit unit :=
  mkResponseWriter "*capable" (fun _ => line "WriteHeader")
    (fun p x => ((Z.of_nat (length p), None), line "Write" x))
    None (Some (line "Flush"))
    (Some (fun x => ((Some tt, Some tt, None), line "Hijack" x)))
    (Some (fun target _ x => (None, line ("Push " +:+ target) x)))
    None.

(** A writer that only adds [Unwrap] to the three methods. *)
Definition wrapping (inner : ResponseWriter (list string) unit unit unit)
  : ResponseWriter (list string) unit unit unit :=
  mkResponseWriter "*wrapping" (fun _ => line "WriteHeader")
    (fun p x => ((Z.of_nat (length p), None), line "Write" x))
    None None None None (Some inner).

(** A writer whose [FlushError] fails with an i/o error. *)
Definition failing_flush : ResponseWriter (list string) unit unit unit :=
  mkResponseWriter "*failing" (fun _ => line "WriteHeader")
    (fun p x => ((Z.of_nat (length p), None), line "Write" x))
    (Some (fun x => (Some (errorString "broken pipe"), line "FlushError" x)))
    None None None None.

End Probes.

(** ** mux.go: middleware composition and sub-router mounting *)

Module Mux.

(** What mux.go uses and does not define.  [Writer] is an
    [http.ResponseWriter] value and [NewResponse] the constructor of
    response.go applied to it, which [ServeHTTP] only passes on;
    [ServeMux] is the state of an [*http.ServeMux], [ServeMux_Handle] its
    registration method, which panics on a pattern it rejects,
    [ServeMux_ServeHTTP] its dispatch, [ServeMux_Handler] its lookup and
    [NotFound] is [http.NotFound].  [RequestRest] holds the fields of an
    [*http.Request] other than the method and the two paths of its URL. *)
Class Env : Type := {
  Writer : Type;
  World : Type;
  RequestRest : Type;
  ServeMux : Type;
  NewResponse : Writer -> Writer;
  NewServeMux : ServeMux
}.

Section WithEnv.
Context `{Env}.

Record Request : Type := mkRequest {
  Method : string;
  URL_Path : string;
  URL_RawPath : string;
  rest : RequestRest
}.

(** An [http.Handler]: [call h w r] is [h.ServeHTTP(w, r)]. *)
Record Handler : Type := HandlerFunc {
  call : Writer -> Request -> World -> World
}.

(** The net/http functions over these types. *)
Class Engine : Type := {
  ServeMux_Handle : string -> Handler -> ServeMux -> Outcome ServeMux unit;
  ServeMux_ServeHTTP : ServeMux -> Writer -> Request -> World -> World;
  ServeMux_Handler : ServeMux -> Request -> Handler * string;
  NotFound : Writer -> Request -> World -> World
}.
Context `{Engine}.

(** [strings.TrimPrefix]. *)
Definition TrimPrefix (s prefix : string) : string :=
  if String.prefix prefix s
  then String.substring (String.length prefix)
         (String.length s - String.length prefix)%nat s
  else s.

(** [http.StripPrefix] (net/http). *)
Definition StripPrefix (prefix : string) (h : Handler) : Handler :=
  if decide (prefix = "") then h
  else
    HandlerFunc (fun w r =>
      let p := TrimPrefix (URL_Path r) prefix in
      let rp := TrimPrefix (URL_RawPath r) prefix in
      if bool_decide (String.length p < String.length (URL_Path r))%nat &&
         (bool_decide (URL_RawPath r = "") ||
          bool_decide (String.length rp < String.length (URL_RawPath r))%nat)
      then call h w (mkRequest (Method r) p rp (rest r))
      else NotFound w r).

(** The struct [mux]: the field [mux] is [mux_], the state of the
    [*http.ServeMux] it points to. *)
Record mux : Type := mkMux {
  mux_ : ServeMux;
  pre : option (Handler -> Handler)
}.

Definition NewMux : mux := mkMux NewServeMux None.

Definition Use (middleware : Handler -> Handler) (m : mux) : mux :=
  let pre0 := pre m in
  mkMux (mux_ m)
    (Some (fun next =>
       match pre0 with
       | Some pre0 =>
           pre0 (HandlerFunc (fun w r => call (middleware next) w r))
       | None => middleware next
       end)).

Definition Handler_ (m : mux) (r : Request) : Handler * string :=
  ServeMux_Handler (mux_ m) r.

(** An [http.Handler] interface value as [registerErr] tests it: the nil
    interface, an [http.HandlerFunc] holding a nil function, or a handler. *)
Inductive HandlerValue : Type :=
| nil_Handler
| nil_HandlerFunc
| a_Handler (h : Handler).

Definition registerErr (pattern : string) (handler : HandlerValue) (m : mux)
  : Outcome mux (option error) :=
  if decide (pattern = "") then
    Return (Some (errorString "h3: invalid pattern")) m
  else
    match handler with
    | nil_Handler => Return (Some (errorString "h3: nil handler")) m
    | nil_HandlerFunc => Return (Some (errorString "h3: nil handler")) m
    | a_Handler h =>
        match ServeMux_Handle pattern h (mux_ m) with
        | Return _ e => Return None (mkMux e (pre m))
        | Panic v e => Panic v (mkMux e (pre m))
        end
    end.

Definition register (pattern : string) (handler : HandlerValue) (m : mux)
  : Outcome mux unit :=
  match registerErr pattern handler m with
  | Return (Some err) m' => Panic err m'
  | Return None m' => Return tt m'
  | Panic v m' => Panic v m'
  end.

Definition Handle (pattern : string) (handler : HandlerValue) (m : mux)
  : Outcome mux unit :=
  register pattern handler m.

(** [HandleFunc]: [None] is a nil function. *)
Definition HandleFunc (pattern : string)
  (handler : option (Writer -> Request -> World -> World)) (m : mux)
  : Outcome mux unit :=
  register pattern
    (match handler with
     | Some f => a_Handler (HandlerFunc f)
     | None => nil_HandlerFunc
     end) m.

(** [pattern[len(pattern)-1] == '/'] and [pattern[:len(pattern)-1]]. *)
Definition last_byte (s : string) : option ascii :=
  String.get (String.length s - 1)%nat s.

Definition drop_last_byte (s : string) : string :=
  String.substring 0 (String.length s - 1)%nat s.

(** [Mount]: the sub-router [sub] is an implementation of [Mux] seen as the
    handler it is. *)
Definition Mount (pattern : string) (sub : Handler) (m : mux)
  : Outcome mux unit :=
  if decide (pattern = "") then
    Panic (errorString "h3: invalid pattern") m
  else if decide (pattern = "/") then
    register "/" (a_Handler sub) m
  else
    let pattern :=
      if bool_decide (0 < String.length pattern)%nat &&
         bool_decide (last_byte pattern = Some "/"%char)
      then drop_last_byte pattern
      else pattern in
    register (pattern +:+ "/{path...}")
      (a_Handler (StripPrefix pattern sub)) m.

Definition ServeHTTP (m : mux) (w : Writer) (r : Request) : World -> World :=
  match pre m with
  | Some pre =>
      call (pre (HandlerFunc (ServeMux_ServeHTTP (mux_ m)))) (NewResponse w) r
  | None => ServeMux_ServeHTTP (mux_ m) (NewResponse w) r
  end.

(** The handler [ServeHTTP] runs, as a function of the terminal handler
    [h]: [m.pre(h)] when a middleware is registered, [h] itself when none
    is. *)
Definition composed (m : mux) (h : Handler) : Handler :=
  match pre m with
  | Some pre => pre h
  | None => h
  end.

(** [Use] called once for each middleware of [ms], in order. *)
Definition Use_all (ms : list (Handler -> Handler)) (m : mux) : mux :=
  foldl (fun m middleware => Use middleware m) m ms.

(** [m1(m2(...mk(h)...))] for [ms = [m1; ...; mk]]. *)
Definition chain (ms : list (Handler -> Handler)) (h : Handler) : Handler :=
  foldr (fun middleware next => middleware next) h ms.

(** A middleware that runs [before], then the next handler, then
    [after]. *)
Definition around
  (ba : (Writer -> Request -> World -> World) *
        (Writer -> Request -> World -> World))
  (next : Handler) : Handler :=
  HandlerFunc (fun w r x => ba.2 w r (call next w r (ba.1 w r x))).

(** The call [m.mux.Handle(pattern, h)] on the engine of [m]. *)
Definition engine_Handle (pattern : string) (h : Handler) (m : mux)
  : Outcome mux unit :=
  match ServeMux_Handle pattern h (mux_ m) with
  | Return _ e => Return tt (mkMux e (pre m))
  | Panic v e => Panic v (mkMux e (pre m))
  end.

End WithEnv.
End Mux.

(** A small engine to run the router on: requests and writers carry
    nothing, the world is the list of lines written so far and the engine
    keeps the patterns it was given. *)
Module Table.
Import Mux.

Definition env : Env :=
  {| Writer := unit; World := list string; RequestRest := unit;
     ServeMux := list string; NewResponse := fun w => w;
     NewServeMux := [] |}.

Definition engine : @Engine env :=
  {| ServeMux_Handle := fun pattern _ (e : @ServeMux env) =>
       Return tt (e ++ [pattern]);
     ServeMux_ServeHTTP := fun _ _ r (x : @World env) =>
       x ++ ["dispatch " +:+ URL_Path r];
     ServeMux_Handler := fun _ _ =>
       (HandlerFunc (fun _ _ (x : @World env) => x), ""%string);
     NotFound := fun _ _ (x : @World env) => x ++ ["404 page not found"] |}.

(** A step of a handler or of a middleware that writes one line. *)
Definition say (line : string)
  : @Writer env -> @Request env -> @World env -> @World env :=
  fun _ _ x => x ++ [line].

(** A handler that writes the path it is called with. *)
Definition echo : @Handler env :=
  HandlerFunc (fun _ r (x : @World env) => x ++ [URL_Path r]).

End Table.

(** ** servlet.go: the lifecycle interface *)

Module Servlet.

(** An implementation of the interface [Servlet] over the world its
    methods act on. *)
Record Servlet (World : Type) : Type := mkServlet {
  Start : Ctx -> World -> option error * World;
  Stop : World -> option error * World
}.
Arguments mkServlet {World} Start Stop.
Arguments Start {World} s ctx w.
Arguments Stop {World} s w.

End Servlet.

(** ** server.go: ordered start with rollback, shutdown handoff *)

Module Server.

(** What server.go uses and does not define: the world the servlets and
    the transport engine act on, the interface type [Mux] ([MuxT]) and the
    fields of [Options] other than [Addr] with their zero value. *)
Class Env : Type := {
  World : Type;
  MuxT : Type;
  OptionsRest : Type;
  zero_OptionsRest : OptionsRest
}.

(** A channel is known by its identity. *)
Definition chan : Type := nat.

Section WithEnv.
Context `{Env}.

Record Options : Type := mkOptions {
  Addr : string;
  rest : OptionsRest
}.

Record Server : Type := mkServer {
  opts : Options;
  mux : MuxT;
  servs : list (Servlet.Servlet World);
  exit : chan
}.

(** A [Component] value; [as_Servlet] is the outcome of the type assertion
    [c.(Servlet)]. *)
Record Component : Type := mkComponent {
  Mux : MuxT;
  Prefix : string;
  as_Servlet : option (Servlet.Servlet World)
}.

(** The [*http.Server] that [Start] builds. *)
Record http_Server : Type := mk_http_Server {
  srv_Addr : string;
  srv_Handler : MuxT;
  srv_rest : OptionsRest;
  srv_BaseContext : Ctx
}.

(** The methods server.go calls on its collaborators: [Mount] of the
    interface [Mux] and [Shutdown] of [*http.Server]. *)
Class Engine : Type := {
  Mux_Mount : string -> MuxT -> MuxT -> Outcome MuxT unit;
  Shutdown : http_Server -> Ctx -> World -> option error * World
}.
Context `{Engine}.

(** The goroutine of [Start] that waits for the shutdown handoff
    (server.go:279-293), by the statement it is at.  [CoStops n]: in the
    loop, [n] servlets are still to be stopped, the Go index [i] is
    [n - 1] and the loop ends at [n = 0]. *)
Inductive coordinator : Type :=
| CoRecv (ch : chan) (server : http_Server) (lctx : Ctx)
| CoStops (n : nat) (exit : chan) (server : http_Server) (lctx : Ctx)
| CoSend (exit : chan) (r : option error) (lctx : Ctx)
| CoDone.

(** A goroutine inside [Stop(ctx)] (server.go:317-321). *)
Inductive stopper : Type :=
| StMake (ctx : Ctx)
| StSend (ctx : Ctx) (ch : chan) (exit : chan)
| StRecv (ctx : Ctx) (exit : chan)
| StReturned (r : option error).

(** The calls made on the servlets (by index in [servs]) and on the
    transport engine, recorded in the order they are made. *)
Inductive Call : Type :=
| call_Start (i : nat) (ctx : Ctx)
| call_Stop (i : nat)
| call_ListenAndServe (server : http_Server)
| call_Shutdown (server : http_Server) (ctx : Ctx)
| call_cancel (ctx : Ctx).

(** The state of the process as far as one server goes. *)
Record State : Type := mkState {
  world : World;
  calls : list Call;
  stdlog : list error;
  coordinators : list coordinator;
  stoppers : list stopper;
  next_id : nat
}.

Definition log_Println (e : option error) (σ : State) : State :=
  match e with
  | Some e =>
      mkState (world σ) (calls σ) (stdlog σ ++ [e]) (coordinators σ)
        (stoppers σ) (next_id σ)
  | None => σ
  end.

(** [New] and [NewServer]; [make(chan chan error)] takes a fresh identity. *)
Definition New (mux : MuxT) (options : list Options) (σ : State)
  : Server * State :=
  let opts :=
    match options with
    | o :: _ => o
    | [] => mkOptions "" zero_OptionsRest
    end in
  (mkServer opts mux [] (next_id σ),
   mkState (world σ) (calls σ) (stdlog σ) (coordinators σ) (stoppers σ)
     (S (next_id σ))).

Definition NewServer (addr : string) (mux : MuxT) (σ : State)
  : Server * State :=
  New mux [mkOptions addr zero_OptionsRest] σ.

Definition Register (c : Component) (s : Server) : Outcome Server unit :=
  match Mux_Mount (Prefix c) (Mux c) (mux s) with
  | Panic v m => Panic v (mkServer (opts s) m (servs s) (exit s))
  | Return _ m =>
      Return tt
        (mkServer (opts s) m
           (match as_Servlet c with
            | Some serv => servs s ++ [serv]
            | None => servs s
            end)
           (exit s))
  end.

(** [serv.Start(ctx)] on the servlet of index [i]. *)
Definition do_Start (i : nat) (serv : Servlet.Servlet World) (ctx : Ctx)
  (σ : State) : option error * State :=
  let '(err, w) := Servlet.Start serv ctx (world σ) in
  (err,
   mkState w (calls σ ++ [call_Start i ctx]) (stdlog σ) (coordinators σ)
     (stoppers σ) (next_id σ)).

(** [err := s.servs[i].Stop(); if err != nil { log.Println(err) }]; [None]
    when [i] is out of range. *)
Definition do_Stop (s : Server) (i : nat) (σ : State) : option State :=
  match servs s !! i with
  | None => None
  | Some serv =>
      let '(err, w) := Servlet.Stop serv (world σ) in
      Some (log_Println err
              (mkState w (calls σ ++ [call_Stop i]) (stdlog σ)
                 (coordinators σ) (stoppers σ) (next_id σ)))
  end.

Definition index_out_of_range : error :=
  errorString "runtime error: index out of range".

(** [for j := i - 1; j >= 0; j-- { ... }] of [Start], entered with
    [n = i]: the body runs at [j = n - 1]. *)
Fixpoint rollback (s : Server) (n : nat) (σ : State) : Outcome State unit :=
  match n with
  | O => Return tt σ
  | S j =>
      match do_Stop s j σ with
      | None => Panic index_out_of_range σ
      | Some σ' => rollback s j σ'
      end
  end.

(** [for i, serv := range s.servs { ... }] of [Start], at index [i] with
    [rest] still to be visited. *)
Fixpoint start_loop (ctx : Ctx) (s : Server) (i : nat)
  (rest : list (Servlet.Servlet World)) (σ : State)
  : Outcome State (option error) :=
  match rest with
  | [] => Return None σ
  | serv :: rest' =>
      match do_Start i serv ctx σ with
      | (Some err, σ1) =>
          match rollback s i σ1 with
          | Return _ σ2 => Return (Some err) σ2
          | Panic v σ2 => Panic v σ2
          end
      | (None, σ1) => start_loop ctx s (S i) rest' σ1
      end
  end.

(** [Start]: on success it leaves two goroutines behind, the coordinator
    at its receive and the one in [server.ListenAndServe()], which is
    recorded as a call. *)
Definition Start (ctx : Ctx) (s : Server) (σ : State)
  : Outcome State (option error) :=
  let opts := opts s in
  match SplitHostPort (Addr opts) with
  | (_, _, Some err) => Return (Some err) σ
  | (_, _, None) =>
      match start_loop ctx s 0 (servs s) σ with
      | Panic v σ1 => Panic v σ1
      | Return (Some err) σ1 => Return (Some err) σ1
      | Return None σ1 =>
          let lctx := WithCancel Background (next_id σ1) in
          let server := mk_http_Server (Addr opts) (mux s) (rest opts) lctx in
          Return None
            (mkState (world σ1)
               (calls σ1 ++ [call_ListenAndServe server])
               (stdlog σ1)
               (coordinators σ1 ++ [CoRecv (exit s) server lctx])
               (stoppers σ1)
               (S (next_id σ1)))
      end
  end.

(** A goroutine calls [Stop(ctx)]. *)
Definition Stop (ctx : Ctx) (σ : State) : State :=
  mkState (world σ) (calls σ) (stdlog σ) (coordinators σ)
    (stoppers σ ++ [StMake ctx]) (next_id σ).

(** One step of the goroutines of the server [s]: a caller of [Stop]
    makes its reply channel; the send on [s.exit] meets the receive of a
    coordinator; the coordinator stops the next servlet; it shuts the
    transport engine down with [lctx]; its send of the result meets the
    receive of the caller, who returns, and the deferred [cancel()] runs.
    Channels are unbuffered: a send or a receive alone is no step. *)
Inductive step (s : Server) : State -> State -> Prop :=
| step_make k ctx σ :
    stoppers σ !! k = Some (StMake ctx) ->
    step s σ
      (mkState (world σ) (calls σ) (stdlog σ) (coordinators σ)
         (<[k := StSend ctx (exit s) (next_id σ)]> (stoppers σ))
         (S (next_id σ)))
| step_handoff k j ctx ch exit_ server lctx σ :
    stoppers σ !! k = Some (StSend ctx ch exit_) ->
    coordinators σ !! j = Some (CoRecv ch server lctx) ->
    step s σ
      (mkState (world σ) (calls σ) (stdlog σ)
         (<[j := CoStops (length (servs s)) exit_ server lctx]>
            (coordinators σ))
         (<[k := StRecv ctx exit_]> (stoppers σ))
         (next_id σ))
| step_stop j n exit_ server lctx σ σ' :
    coordinators σ !! j = Some (CoStops (S n) exit_ server lctx) ->
    do_Stop s n σ = Some σ' ->
    step s σ
      (mkState (world σ') (calls σ') (stdlog σ')
         (<[j := CoStops n exit_ server lctx]> (coordinators σ'))
         (stoppers σ') (next_id σ'))
| step_shutdown j exit_ server lctx σ :
    coordinators σ !! j = Some (CoStops 0 exit_ server lctx) ->
    step s σ
      (mkState (Shutdown server lctx (world σ)).2
         (calls σ ++ [call_Shutdown server lctx]) (stdlog σ)
         (<[j := CoSend exit_ (Shutdown server lctx (world σ)).1 lctx]>
            (coordinators σ))
         (stoppers σ) (next_id σ))
| step_reply j k exit_ r lctx ctx σ :
    coordinators σ !! j = Some (CoSend exit_ r lctx) ->
    stoppers σ !! k = Some (StRecv ctx exit_) ->
    step s σ
      (mkState (world σ) (calls σ ++ [call_cancel lctx]) (stdlog σ)
         (<[j := CoDone]> (coordinators σ))
         (<[k := StReturned r]> (stoppers σ))
         (next_id σ)).

(** [Start] called on each servlet of [l] in order from the world [w]:
    the world reached when every call returns nil. *)
Fixpoint start_all (ctx : Ctx) (l : list (Servlet.Servlet World)) (w : World)
  : option World :=
  match l with
  | [] => Some w
  | serv :: l' =>
      match Servlet.Start serv ctx w with
      | (None, w') => start_all ctx l' w'
      | (Some _, _) => None
      end
  end.

(** [Stop] called on each servlet of [l] in the order of [l]: the world
    reached and the errors returned. *)
Fixpoint stop_all (l : list (Servlet.Servlet World)) (w : World)
  : World * list error :=
  match l with
  | [] => (w, [])
  | serv :: l' =>
      let '(err, w1) := Servlet.Stop serv w in
      let '(w2, errs) := stop_all l' w1 in
      (w2, match err with Some e => e :: errs | None => errs end)
  end.

(** How often the servlet of index [j] was started and stopped in a list
    of calls. *)
Definition is_Start (j : nat) (c : Call) : bool :=
  match c with
  | call_Start i _ => bool_decide (i = j)
  | _ => false
  end.

Definition is_Stop (j : nat) (c : Call) : bool :=
  match c with
  | call_Stop i => bool_decide (i = j)
  | _ => false
  end.

Definition starts_of (j : nat) (l : list Call) : nat :=
  length (List.filter (is_Start j) l).

Definition stops_of (j : nat) (l : list Call) : nat :=
  length (List.filter (is_Stop j) l).

(** The context and the [*http.Server] that a [Start] entered in [σ]
    makes. *)
Definition lctx_of (σ : State) : Ctx := WithCancel Background (next_id σ).

Definition server_of (s : Server) (σ : State) : http_Server :=
  mk_http_Server (Addr (opts s)) (mux s) (rest (opts s)) (lctx_of σ).

(** The state a call ends in, returning or panicking. *)
Definition state_of {A : Type} (o : Outcome State A) : State :=
  match o with
  | Return _ σ => σ
  | Panic _ σ => σ
  end.

(** A process in which no goroutine of the server runs yet. *)
Definition init (w : World) : State := mkState w [] [] [] [] 0%nat.

Definition with_threads (cs : list coordinator) (ts : list stopper)
  (σ : State) : State :=
  mkState (world σ) (calls σ) (stdlog σ) cs ts (next_id σ).

(** [σ] after the servlets of indices [hi - 1] down to [lo] were stopped
    and their errors logged. *)
Definition stopped (s : Server) (lo hi : nat) (σ : State) : State :=
  let l := rev (take (hi - lo) (drop lo (servs s))) in
  mkState (stop_all l (world σ)).1
    (calls σ ++ (call_Stop <$> rev (seq lo (hi - lo))))
    (stdlog σ ++ (stop_all l (world σ)).2)
    (coordinators σ) (stoppers σ) (next_id σ).

(** The states one call of [Stop(ctx)] goes through when [b] is the state
    [Start] left, with its one coordinator [CoRecv (exit s) server lctx]
    and no caller of [Stop] yet: the reply channel is made, the handoff is
    done and the servlets above index [n] are stopped, the engine is shut
    down, the caller has returned. *)
Definition st_sending (s : Server) (b : State) (ctx : Ctx)
  (server : http_Server) (lctx : Ctx) : State :=
  mkState (world b) (calls b) (stdlog b)
    [CoRecv (exit s) server lctx] [StSend ctx (exit s) (next_id b)]
    (S (next_id b)).

Definition st_stopping (s : Server) (b : State) (ctx : Ctx)
  (server : http_Server) (lctx : Ctx) (n : nat) : State :=
  with_threads [CoStops n (next_id b) server lctx] [StRecv ctx (next_id b)]
    (stopped s n (length (servs s))
       (mkState (world b) (calls b) (stdlog b) [] [] (S (next_id b)))).

Definition st_replying (s : Server) (b : State) (ctx : Ctx)
  (server : http_Server) (lctx : Ctx) : State :=
  let σ := st_stopping s b ctx server lctx 0 in
  mkState (Shutdown server lctx (world σ)).2
    (calls σ ++ [call_Shutdown server lctx]) (stdlog σ)
    [CoSend (next_id b) (Shutdown server lctx (world σ)).1 lctx]
    [StRecv ctx (next_id b)] (next_id σ).

Definition st_final (s : Server) (b : State) (server : http_Server)
  (lctx : Ctx) : State :=
  let l := rev (servs s) in
  let w := (stop_all l (world b)).1 in
  mkState (Shutdown server lctx w).2
    (calls b ++ (call_Stop <$> rev (seq 0 (length (servs s)))) ++
     [call_Shutdown server lctx; call_cancel lctx])
    (stdlog b ++ (stop_all l (world b)).2)
    [CoDone] [StReturned (Shutdown server lctx w).1] (S (next_id b)).

Inductive on_path (s : Server) (b : State) (ctx : Ctx)
  (server : http_Server) (lctx : Ctx) : State -> Prop :=
| path_made : on_path s b ctx server lctx (Stop ctx b)
| path_sending : on_path s b ctx server lctx (st_sending s b ctx server lctx)
| path_stopping n :
    (n <= length (servs s))%nat ->
    on_path s b ctx server lctx (st_stopping s b ctx server lctx n)
| path_replying :
    on_path s b ctx server lctx (st_replying s b ctx server lctx)
| path_final : on_path s b ctx server lctx (st_final s b server lctx).

(** [b] is a state [Start] left behind in a process where nothing else of
    the server runs: one coordinator, at its receive, and no caller of
    [Stop]. *)
Definition started (s : Server) (b : State) (server : http_Server)
  (lctx : Ctx) : Prop :=
  coordinators b = [CoRecv (exit s) server lctx] /\ stoppers b = [].

(** A caller of [Stop] that has not passed its send on [s.exit]. *)
Definition waiting (t : stopper) : Prop :=
  match t with
  | StMake _ | StSend _ _ _ => True
  | StRecv _ _ | StReturned _ => False
  end.

(** No coordinator is at its receive on [s.exit]. *)
Definition no_receiver (σ : State) : Prop :=
  forall j ch server lctx,
    coordinators σ !! j <> Some (CoRecv ch server lctx).

(** [Register] called for each component of [cs] in order; a panic ends
    the set-up. *)
Fixpoint Register_all (cs : list Component) (s : Server)
  : Outcome Server unit :=
  match cs with
  | [] => Return tt s
  | c :: cs' =>
      match Register c s with
      | Return _ s' => Register_all cs' s'
      | Panic v s' => Panic v s'
      end
  end.

(** [NewComponent] of component.go; [new_mux] is what [NewMux()] returns.
    A [*component] has no [Start] and no [Stop]: it is no servlet. *)
Definition NewComponent (new_mux : MuxT) (prefix : string) : Component :=
  mkComponent new_mux prefix None.










End WithEnv.
End Server.

(** The servlets of server_test.go and a transport engine to run them
    with.  The world is the list of the calls the servlets saw, as
    [servletWithOrder] keeps it, and the number the engine has been shut
    down with. *)
Module Lifecycle.
Import Server.

Definition env : Env :=
  {| World := list string; MuxT := unit; OptionsRest := unit;
     zero_OptionsRest := tt |}.

Definition DeadlineExceeded : error :=
  errorString "context deadline exceeded".

(** [Shutdown] drains at once under a context without deadline and gives
    up with [context.DeadlineExceeded] under one with a deadline. *)
Definition engine : @Engine env :=
  {| Mux_Mount := fun _ _ (m : @MuxT env) => Return tt m;
     Shutdown := fun _ c (w : @World env) =>
       match Deadline c with
       | Some _ => (Some DeadlineExceeded, w ++ ["shutdown: gave up"])
       | None => (None, w ++ ["shutdown: drained"])
       end |}.

(** [mockServletComponent] with its [startError] and [stopError]. *)
Definition mock (id : string) (startError stopError : option error)
  : Servlet.Servlet (@World env) :=
  Servlet.mkServlet
    (fun _ (w : @World env) => (startError, w ++ ["start " +:+ id]))
    (fun (w : @World env) => (stopError, w ++ ["stop " +:+ id])).

Definition boom : error := errorString "boom".

(** Servlets A, B, C where B fails to start, on a valid address. *)
Definition abc : @Server env :=
  @mkServer env (@mkOptions env ":8092" tt) tt
    [mock "A" None (Some (errorString "stop A failed"));
     mock "B" (Some boom) None;
     mock "C" None None] 0%nat.

(** Three servlets that start; the second fails to stop. *)
Definition s123 : @Server env :=
  @mkServer env (@mkOptions env ":8094" tt) tt
    [mock "1" None None;
     mock "2" None (Some (errorString "stop 2 failed"));
     mock "3" None None] 0%nat.

Definition fresh : @State env := @mkState env [] [] [] [] [] 1%nat.

(** [s123] started, and then stopped once. *)
Definition started123 : @State env :=
  state_of (@Start env Background s123 fresh).

Definition final123 : @State env :=
  @st_final env engine s123 started123 (server_of s123 fresh)
    (lctx_of fresh).

(** A server whose address has no port. *)
Definition no_port : @Server env :=
  @mkServer env (@mkOptions env "localhost" tt) tt [mock "A" None None]
    0%nat.

End Lifecycle.

(** Hosts and ports as one writes them: no colon and no bracket. *)
Module Address.

Definition free_of (c : ascii) (s : string) : Prop :=
  forall n, String.get n s <> Some c.

Definition plain (s : string) : Prop :=
  free_of ":" s /\ free_of "[" s /\ free_of "]" s.

End Address.

(** Components to set a server up with, and a server started twice. *)
Module Setup.
Import Server Lifecycle.

(** [NewComponent("/api")] and a component that is a servlet. *)
Definition api : @Component env := @NewComponent env tt "/api".

Definition db : @Component env :=
  @mkComponent env tt "/db" (Some (mock "db" None None)).

(** [New(mux)] without options. *)
Definition bare : @Server env := (@New env tt [] fresh).1.

(** [bare] after [Register(api)] and [Register(db)]. *)
Definition bare_set_up : @Server env :=
  @mkServer env (@mkOptions env "" tt) tt [mock "db" None None] 1%nat.

(** [s123] started in a process that has just begun, once and twice. *)
Definition begun : @State env := @init env [].

Definition once : @State env := state_of (@Start env Background s123 begun).

Definition twice : @State env := state_of (@Start env Background s123 once).

(** [abc] after its [Start] failed. *)
Definition failed : @State env := state_of (@Start env Background abc fresh).

End Setup.

(** * Properties *)

(** ** 64-bit arithmetic *)

Lemma wrap64_id z : in_int64 z -> wrap64 z = z.
Proof.
  unfold in_int64, wrap64. intros Hz.
  rewrite Z.mod_small by lia. lia.
Qed.

Lemma wrap64_in_int64 z : in_int64 (wrap64 z).
Proof.
  unfold in_int64, wrap64.
  pose proof (Z.mod_pos_bound (z + 2 ^ 63) (2 ^ 64)). lia.
Qed.

Lemma wrap64_add_l a b : wrap64 (wrap64 a + b) = wrap64 (a + b).
Proof.
  unfold wrap64.
  replace ((a + 2 ^ 63) mod 2 ^ 64 - 2 ^ 63 + b + 2 ^ 63)
    with ((a + 2 ^ 63) mod 2 ^ 64 + b) by lia.
  replace (a + b + 2 ^ 63) with ((a + 2 ^ 63) + b) by lia.
  by rewrite Zplus_mod_idemp_l.
Qed.

(** ** The response wrapper *)

Module ResponseFacts.
Import Response.
Section WithWorld.
Context {World Conn ReadWriter PushOptions : Type}.
Abbreviation ResponseWriter :=
  (Response.ResponseWriter World Conn ReadWriter PushOptions).
Abbreviation response :=
  (Response.response World Conn ReadWriter PushOptions).
Abbreviation St := (Response.St World).
Implicit Types (w : ResponseWriter) (r : response) (σ : St).

Lemma WriteHeader_committed code r σ :
  committed r = true ->
  WriteHeader code r σ =
  (r, log_Printf "attempt to write header after response committed" σ).
Proof. unfold WriteHeader. by intros ->. Qed.

Lemma Write_committed p r σ :
  committed r = true ->
  Write p r σ =
  ((rw_Write (ResponseWriter_ r) p (world σ)).1,
   mkResponse (ResponseWriter_ r) (status r)
     (wrap64 (size r + (rw_Write (ResponseWriter_ r) p (world σ)).1.1)) true,
   mkSt (rw_Write (ResponseWriter_ r) p (world σ)).2 (stdlog σ)).
Proof.
  unfold Write. intros Hc. rewrite Hc. simpl.
  destruct (rw_Write _ p _) as [[n err] w2]. simpl. by rewrite Hc.
Qed.

(** The first write of a wrapper that [NewResponse] just built. *)
Lemma Write_fresh p w σ :
  Write p (NewResponse (inl w)) σ =
  ((rw_Write w p (rw_WriteHeader w StatusOK (world σ))).1,
   mkResponse w StatusOK
     (wrap64 (rw_Write w p (rw_WriteHeader w StatusOK (world σ))).1.1) true,
   mkSt (rw_Write w p (rw_WriteHeader w StatusOK (world σ))).2 (stdlog σ)).
Proof.
  unfold Write, NewResponse, WriteHeader. simpl.
  by destruct (rw_Write w p _) as [[n err] w2].
Qed.

Lemma Writes_committed ps r σ :
  committed r = true -> in_int64 (size r) ->
  (Writes ps r σ).1.1 = (sink_Writes (ResponseWriter_ r) ps (world σ)).1 /\
  world (Writes ps r σ).2 = (sink_Writes (ResponseWriter_ r) ps (world σ)).2 /\
  stdlog (Writes ps r σ).2 = stdlog σ /\
  (Writes ps r σ).1.2 =
  mkResponse (ResponseWriter_ r) (status r)
    (wrap64 (size r + total (Writes ps r σ).1.1.*1)) true.
Proof.
  revert r σ. induction ps as [|p ps IH]; intros r σ Hc Hs; simpl.
  - rewrite Z.add_0_r, wrap64_id by done. destruct r; simpl in *. by subst.
  - rewrite Write_committed by done.
    set (o := rw_Write (ResponseWriter_ r) p (world σ)).
    set (r1 := mkResponse _ _ _ _). set (σ1 := mkSt _ _).
    destruct (IH r1 σ1) as (IH1 & IH2 & IH3 & IH4);
      [done | apply wrap64_in_int64 |].
    destruct (Writes ps r1 σ1) as [[rs r2] σ2]. simpl in *.
    destruct o as [res x1]. simpl in *.
    destruct (sink_Writes (ResponseWriter_ r) ps x1) as [rs' x2]. simpl in *.
    subst. repeat split; try done.
    rewrite wrap64_add_l. do 2 f_equal. unfold fmap. lia.
Qed.

Lemma run_ops_committed ops r σ :
  committed r = true ->
  status (run_ops ops r σ).1 = status r /\
  committed (run_ops ops r σ).1 = true.
Proof.
  revert r σ. induction ops as [|[code|p] ops IH]; intros r σ Hc; simpl.
  - done.
  - rewrite WriteHeader_committed by done. by apply IH.
  - rewrite Write_committed by done. simpl.
    by destruct (IH (mkResponse (ResponseWriter_ r) (status r)
                       (wrap64 (size r +
                          (rw_Write (ResponseWriter_ r) p (world σ)).1.1))
                       true)
                   (mkSt (rw_Write (ResponseWriter_ r) p (world σ)).2
                      (stdlog σ)) eq_refl) as [-> ->].
Qed.

(** C6.  A wrapper that [NewResponse] just built and that receives the
    writes [ps], with no explicit [WriteHeader], ends with status 200, is
    committed as soon as there is one write (also a write of zero bytes),
    and its size is the sum of the byte counts the underlying writer
    reported, in 64-bit arithmetic, hence the exact sum whenever that sum
    is an int64.  The underlying writer received [WriteHeader(200)] before
    the first body and then the bodies in order, and nothing is logged. *)
Theorem Writes_without_WriteHeader w ps σ :
  let out := Writes ps (NewResponse (inl w)) σ in
  let counts := out.1.1.*1 in
  Status out.1.2 = 200 /\
  Committed out.1.2 = bool_decide (ps <> []) /\
  Size out.1.2 = wrap64 (total counts) /\
  (in_int64 (total counts) -> Size out.1.2 = total counts) /\
  (out.1.1, world out.2) =
  sink_Writes w ps
    (match ps with
     | [] => world σ
     | _ :: _ => rw_WriteHeader w 200 (world σ)
     end) /\
  stdlog out.2 = stdlog σ.
Proof.
  intros out counts.
  assert (Status out.1.2 = 200 /\
          Committed out.1.2 = bool_decide (ps <> []) /\
          Size out.1.2 = wrap64 (total counts) /\
          (out.1.1, world out.2) =
          sink_Writes w ps
            (match ps with
             | [] => world σ
             | _ :: _ => rw_WriteHeader w 200 (world σ)
             end) /\
          stdlog out.2 = stdlog σ) as (H1 & H2 & H3 & H4 & H5).
  { subst out counts. destruct ps as [|p ps]; [done|].
    cbn [Writes sink_Writes]. rewrite Write_fresh. unfold StatusOK.
    set (o := rw_Write w p (rw_WriteHeader w 200 (world σ))).
    set (r1 := mkResponse _ _ _ _). set (σ1 := mkSt _ _).
    destruct (Writes_committed ps r1 σ1) as (E1 & E2 & E3 & E4);
      [done | apply wrap64_in_int64 |].
    destruct (Writes ps r1 σ1) as [[rs r2] σ2]. simpl in *.
    destruct o as [res x1]. simpl in *.
    destruct (sink_Writes w ps x1) as [rs' x2]. simpl in *. subst.
    unfold Status, Committed, Size. simpl.
    repeat split; try done.
    by rewrite wrap64_add_l. }
  repeat split; try done.
  intros Hr. rewrite H3. by apply wrap64_id.
Qed.


Lemma op_commits o r σ : committed (run_ops [o] r σ).1 = true.
Proof.
  destruct o as [code|p]; simpl.
  - unfold WriteHeader. by destruct (committed r) eqn:E.
  - destruct (committed r) eqn:E.
    + by rewrite Write_committed.
    + unfold Write, WriteHeader. rewrite E. simpl.
      destruct (status r =? 0); simpl; rewrite ?E;
        by destruct (rw_Write _ p _) as [[n err] w2].
Qed.

(** C7.  A wrapper is committed after any header-write or body-write.  On
    a committed wrapper [WriteHeader(code)] returns normally and changes
    nothing: the wrapper (status, size, committed) is the same, the world
    behind the underlying writer is the same, so nothing was forwarded,
    and one line is logged.  Whatever header-writes and body-writes
    follow, the status stays the one recorded first. *)
Theorem WriteHeader_after_commit :
  (forall o r σ, Committed (run_ops [o] r σ).1 = true) /\
  (forall r σ code,
     Committed r = true ->
     WriteHeader code r σ =
     (r, mkSt (world σ)
           (stdlog σ ++
            ["attempt to write header after response committed"])) /\
     forall ops, Status (run_ops ops r σ).1 = Status r /\
                 Committed (run_ops ops r σ).1 = true).
Proof.
  split; [apply op_commits|].
  intros r σ code Hc. split.
  - by apply WriteHeader_committed.
  - intros ops. by apply run_ops_committed.
Qed.

Lemma controller_Flush_unsupported w (x : World) :
  supports_flush w = false ->
  controller_Flush w x = (Some errNotSupported, x).
Proof.
  revert w. fix IH 1. intros [T wh wr fe fl hj pu un].
  unfold supports_flush. cbn [unwrap_chain existsb].
  intros [Hw Hun]%orb_false_iff. unfold implements_flush in Hw.
  simpl in Hw. destruct fe, fl; try discriminate.
  destruct un as [w'|]; [|done].
  cbn [controller_Flush]. by apply IH.
Qed.

Lemma controller_Hijack_unsupported w (x : World) :
  supports_hijack w = false ->
  controller_Hijack w x = ((None, None, Some errNotSupported), x).
Proof.
  revert w. fix IH 1. intros [T wh wr fe fl hj pu un].
  unfold supports_hijack. cbn [unwrap_chain existsb].
  intros [Hw Hun]%orb_false_iff. unfold implements_hijack in Hw.
  simpl in Hw. destruct hj; try discriminate.
  destruct un as [w'|]; [|done].
  cbn [controller_Hijack]. by apply IH.
Qed.

(** C8.  When the underlying writer does not support flushing, [Flush]
    panics; when it does not support hijacking, [Hijack] returns a non-nil
    error and no connection; when it is no pusher, [Push] returns a
    non-nil error.  The two soft failures return normally and leave the
    state as it was. *)
Theorem unsupported_capabilities r σ :
  (supports_flush (Unwrap r) = false ->
   exists msg, Flush r σ = Panic (errorString msg) σ) /\
  (supports_hijack (Unwrap r) = false ->
   Hijack r σ = ((None, None, Some errNotSupported), σ)) /\
  (supports_push (Unwrap r) = false ->
   forall target opts,
     exists msg, Push target opts r σ = (Some (errorString msg), σ)).
Proof.
  destruct σ as [x lg]. unfold Unwrap. repeat split.
  - intros Hf. unfold Flush. simpl.
    rewrite controller_Flush_unsupported by done. simpl. eauto.
  - intros Hh. unfold Hijack. simpl.
    by rewrite controller_Hijack_unsupported.
  - intros Hp target opts. unfold Push, supports_push in *.
    destruct (rw_Push (ResponseWriter_ r)); [done|]. eauto.
Qed.

End WithWorld.

Lemma Writes_without_WriteHeader_witness :
  Size (Writes [Doubles.hello; []; Doubles.hello]
          (NewResponse (inl Doubles.NewRecorder))
          (mkSt Doubles.zero_Recorder [])).1.2 = 10.
Proof.
  refine (proj1 (proj2 (proj2 (proj2
            (Writes_without_WriteHeader Doubles.NewRecorder
               [Doubles.hello; []; Doubles.hello]
               (mkSt Doubles.zero_Recorder []))))) _).
  vm_compute. split; [discriminate | reflexivity].
Defined.

Lemma WriteHeader_after_commit_witness :
  WriteHeader 400
    (WriteHeader 200 (NewResponse (inl Doubles.NewRecorder))
       (mkSt Doubles.zero_Recorder [])).1
    (WriteHeader 200 (NewResponse (inl Doubles.NewRecorder))
       (mkSt Doubles.zero_Recorder [])).2 =
  (mkResponse Doubles.NewRecorder 200 0 true,
   mkSt (Doubles.mkRecorder 200 [] false true)
     ["attempt to write header after response committed"]).
Proof.
  refine (proj1 (proj2 WriteHeader_after_commit
                   (WriteHeader 200 (NewResponse (inl Doubles.NewRecorder))
                      (mkSt Doubles.zero_Recorder [])).1
                   (WriteHeader 200 (NewResponse (inl Doubles.NewRecorder))
                      (mkSt Doubles.zero_Recorder [])).2 400 _)).
  reflexivity.
Defined.

(** The scenario of the specification: header-write 201, then bodies of 3
    and 4 bytes. *)
Example explicit_status_then_two_writes :
  let r :=
    (run_ops [op_WriteHeader 201; op_Write [x61; x62; x63];
              op_Write [x64; x65; x66; x67]]
       (NewResponse (inl Doubles.NewRecorder))
       (mkSt Doubles.zero_Recorder [])).1 in
  Status r = 201 /\ Size r = 7 /\ Committed r = true.
Proof. by vm_compute. Qed.

Lemma unsupported_capabilities_witness :
  (exists msg,
     Flush (NewResponse (inl Doubles.nonFlusherWriter))
       (mkSt Doubles.zero_Recorder []) =
     Panic (errorString msg) (mkSt Doubles.zero_Recorder [])) /\
  Hijack (NewResponse (inl Doubles.NewRecorder))
    (mkSt Doubles.zero_Recorder []) =
  ((None, None, Some errNotSupported), mkSt Doubles.zero_Recorder []) /\
  (exists msg,
     Push "/static/style.css" tt (NewResponse (inl Doubles.NewRecorder))
       (mkSt Doubles.zero_Recorder []) =
     (Some (errorString msg), mkSt Doubles.zero_Recorder [])).
Proof.
  split; [|split].
  - apply (unsupported_capabilities
             (NewResponse (inl Doubles.nonFlusherWriter))
             (mkSt Doubles.zero_Recorder [])).
    reflexivity.
  - apply (unsupported_capabilities
             (NewResponse (inl Doubles.NewRecorder))
             (mkSt Doubles.zero_Recorder [])).
    reflexivity.
  - apply (proj2 (proj2 (unsupported_capabilities
                           (NewResponse (inl Doubles.NewRecorder))
                           (mkSt Doubles.zero_Recorder [])))).
    reflexivity.
Defined.

End ResponseFacts.

(** ** The router *)

Module MuxFacts.
Import Mux.
Section WithEnv.
Context `{Engine}.
Implicit Types (m : mux) (h : Handler) (ms : list (Handler -> Handler)).

Lemma HandlerFunc_call h : HandlerFunc (fun w r => call h w r) = h.
Proof. by destruct h. Qed.

Lemma composed_Use middleware m h :
  composed (Use middleware m) h = composed m (middleware h).
Proof.
  unfold composed, Use. simpl.
  destruct (pre m); [|done]. by rewrite HandlerFunc_call.
Qed.

Lemma composed_Use_all ms m h :
  composed (Use_all ms m) h = composed m (chain ms h).
Proof.
  revert m. induction ms as [|mw ms IH]; intros m; simpl; [done|].
  unfold Use_all in *. simpl. by rewrite IH, composed_Use.
Qed.

Lemma ServeHTTP_composed m w r :
  ServeHTTP m w r =
  call (composed m (HandlerFunc (ServeMux_ServeHTTP (mux_ m))))
    (NewResponse w) r.
Proof. unfold ServeHTTP, composed. by destruct (pre m). Qed.

Lemma mux_Use_all ms m : mux_ (Use_all ms m) = mux_ m.
Proof.
  revert m. induction ms as [|mw ms IH]; intros m; [done|].
  unfold Use_all in *. simpl. by rewrite IH.
Qed.

Lemma call_chain_around bas h w r x :
  call (chain (around <$> bas) h) w r x =
  foldr (fun ba acc => ba.2 w r acc)
    (call h w r (foldl (fun acc ba => ba.1 w r acc) x bas)) bas.
Proof.
  revert x. induction bas as [|ba bas IH]; intros x; simpl; [done|].
  by rewrite IH.
Qed.

(** C4.  After [Use(m1)], ..., [Use(mk)] on a new router the handler run
    for a request is [m1(m2(...mk(h)...))] applied to the terminal handler
    [h], which for [ServeHTTP] is the engine's dispatch: the first
    middleware is outermost.  One more [Use] puts its middleware innermost
    and keeps the order of the others.  With no middleware the composition
    is the identity.  For middlewares with a pre-step and a post-step the
    run is pre(m1), ..., pre(mk), the handler, post(mk), ..., post(m1). *)
Theorem Use_onion ms h :
  composed (Use_all ms NewMux) h = chain ms h /\
  (forall w r,
     ServeHTTP (Use_all ms NewMux) w r =
     call (chain ms (HandlerFunc (ServeMux_ServeHTTP NewServeMux)))
       (NewResponse w) r) /\
  (forall middleware,
     composed (Use middleware (Use_all ms NewMux)) h =
     composed (Use_all ms NewMux) (middleware h) /\
     Use_all (ms ++ [middleware]) NewMux =
     Use middleware (Use_all ms NewMux)) /\
  composed NewMux h = h /\
  (forall w r, ServeHTTP NewMux w r =
               ServeMux_ServeHTTP NewServeMux (NewResponse w) r) /\
  (forall bas w r x,
     call (composed (Use_all (around <$> bas) NewMux) h) w r x =
     foldr (fun ba acc => ba.2 w r acc)
       (call h w r (foldl (fun acc ba => ba.1 w r acc) x bas)) bas).
Proof.
  repeat split.
  - by rewrite composed_Use_all.
  - intros w r. rewrite ServeHTTP_composed, composed_Use_all, mux_Use_all.
    done.
  - apply composed_Use.
  - unfold Use_all. by rewrite foldl_app.
  - intros bas w r x. rewrite composed_Use_all. simpl.
    apply call_chain_around.
Qed.

Lemma get_app_length q c t :
  String.get (String.length q) (q +:+ String c t) = Some c.
Proof. induction q as [|a q IH]; simpl; [done|]. exact IH. Qed.

Lemma substring_0_app q t :
  String.substring 0 (String.length q) (q +:+ t) = q.
Proof.
  induction q as [|a q IH]; simpl.
  - by destruct t.
  - by rewrite IH.
Qed.

Lemma string_length_app q t :
  String.length (q +:+ t) = (String.length q + String.length t)%nat.
Proof. induction q as [|a q IH]; simpl; [done|]. by rewrite IH. Qed.

Lemma last_byte_app q c : last_byte (q +:+ String c "") = Some c.
Proof.
  unfold last_byte. rewrite string_length_app. simpl.
  replace (String.length q + 1 - 1)%nat with (String.length q) by lia.
  apply get_app_length.
Qed.

Lemma drop_last_byte_app q c : drop_last_byte (q +:+ String c "") = q.
Proof.
  unfold drop_last_byte. rewrite string_length_app. simpl.
  replace (String.length q + 1 - 1)%nat with (String.length q) by lia.
  apply substring_0_app.
Qed.

Lemma last_byte_cons a b p :
  last_byte (String a (String b p)) = last_byte (String b p).
Proof. unfold last_byte. simpl. by rewrite Nat.sub_0_r. Qed.

Lemma drop_last_byte_cons a b p :
  drop_last_byte (String a (String b p)) =
  String a (drop_last_byte (String b p)).
Proof. unfold drop_last_byte. simpl. by rewrite Nat.sub_0_r. Qed.

Lemma last_byte_inv p c :
  last_byte p = Some c -> p <> "" -> p = drop_last_byte p +:+ String c "".
Proof.
  induction p as [|a p IH]; [done|]. intros Hget _.
  destruct p as [|b p].
  - unfold last_byte in Hget. simpl in Hget. by inversion Hget.
  - rewrite last_byte_cons in Hget. rewrite drop_last_byte_cons.
    change (String a (String b p) =
            String a (drop_last_byte (String b p) +:+ String c "")).
    f_equal. by apply IH.
Qed.

Lemma prefix_app q t : String.prefix q (q +:+ t) = true.
Proof.
  induction q as [|a q IH]; simpl; [by destruct t|].
  destruct (ascii_dec a a); [done|congruence].
Qed.

Lemma substring_app_drop q t :
  String.substring (String.length q) (String.length t) (q +:+ t) = t.
Proof.
  induction q as [|a q IH]; [|exact IH].
  change (String.substring 0 (String.length t) t = t).
  induction t as [|b t IHt]; simpl; [done|]. by rewrite IHt.
Qed.

Lemma TrimPrefix_app q t : TrimPrefix (q +:+ t) q = t.
Proof.
  unfold TrimPrefix. rewrite prefix_app, string_length_app.
  replace (String.length q + String.length t - String.length q)%nat
    with (String.length t) by lia.
  apply substring_app_drop.
Qed.

Lemma TrimPrefix_empty q : TrimPrefix "" q = "".
Proof. unfold TrimPrefix. by destruct q. Qed.

Lemma register_handler pattern h m :
  pattern <> "" ->
  register pattern (a_Handler h) m = engine_Handle pattern h m.
Proof.
  intros Hp. unfold register, registerErr, engine_Handle.
  destruct (decide (pattern = "")); [done|].
  by destruct (ServeMux_Handle pattern h (mux_ m)).
Qed.

Lemma append_nonempty_r q t : t <> "" -> q +:+ t <> "".
Proof.
  intros Ht E. apply (f_equal String.length) in E.
  rewrite string_length_app in E. destruct t; [done|]. simpl in E. lia.
Qed.

(** C5.  [Mount("/", sub)] registers [sub] itself under the pattern "/".
    For a prefix that ends in "/" and is not "/", that one byte is dropped;
    any other non-empty prefix is kept; [sub] is then registered under the
    prefix followed by "/{path...}", behind [http.StripPrefix] of the
    prefix, which forwards a request whose path begins with the prefix to
    [sub] with the prefix removed.  [Mount("", sub)] panics and leaves the
    router as it was. *)
Theorem Mount_cases sub m :
  Mount "/" sub m = engine_Handle "/" sub m /\
  (forall q, q <> "" ->
     Mount (q +:+ "/") sub m =
     engine_Handle (q +:+ "/{path...}") (StripPrefix q sub) m) /\
  (forall p, p <> "" -> (forall q, p <> q +:+ "/") ->
     Mount p sub m =
     engine_Handle (p +:+ "/{path...}") (StripPrefix p sub) m) /\
  (forall p tail w r,
     p <> "" -> URL_Path r = p +:+ tail -> URL_RawPath r = "" ->
     call (StripPrefix p sub) w r =
     call sub w (mkRequest (Method r) tail "" (rest r))) /\
  Mount "" sub m = Panic (errorString "h3: invalid pattern") m.
Proof.
  split; [|split; [|split; [|split]]].
  - unfold Mount. simpl. by apply register_handler.
  - intros q Hq. unfold Mount.
    destruct (decide (q +:+ "/" = "")) as [E|_].
    { by apply append_nonempty_r in E. }
    destruct (decide (q +:+ "/" = "/")) as [E|_].
    { apply (f_equal String.length) in E. rewrite string_length_app in E.
      destruct q; [done|]. simpl in E. lia. }
    rewrite last_byte_app, drop_last_byte_app.
    rewrite bool_decide_eq_true_2.
    + simpl. apply register_handler. by apply append_nonempty_r.
    + rewrite string_length_app. simpl. lia.
  - intros p Hp Hno. unfold Mount.
    destruct (decide (p = "")) as [E|_]; [done|].
    destruct (decide (p = "/")) as [E|_].
    { by destruct (Hno ""). }
    rewrite (bool_decide_eq_false_2 (last_byte p = Some "/"%char)).
    + rewrite andb_false_r. apply register_handler.
      by apply append_nonempty_r.
    + intros Hl. apply (Hno (drop_last_byte p)). by apply last_byte_inv.
  - intros p tail w r Hp HP HR. unfold StripPrefix.
    destruct (decide (p = "")) as [E|_]; [done|]. simpl.
    rewrite HP, HR, TrimPrefix_app, TrimPrefix_empty.
    rewrite bool_decide_eq_true_2.
    + done.
    + rewrite string_length_app. destruct p; [done|]. simpl. lia.
  - done.
Qed.

End WithEnv.

(** Two middlewares around a handler, as in the test of [Use]. *)
Example Use_order :
  @call Table.env
    (composed
       (Use_all
          [around (Table.say "m1 before", Table.say "m1 after");
           around (Table.say "m2 before", Table.say "m2 after")]
          (@NewMux Table.env))
       (HandlerFunc (Table.say "handler")))
    tt (@mkRequest Table.env "GET" "/test" "" tt) [] =
  ["m1 before"; "m2 before"; "handler"; "m2 after"; "m1 after"].
Proof. reflexivity. Qed.

Lemma Mount_cases_witness :
  @Mount Table.env Table.engine "/api/" Table.echo
    (@NewMux Table.env) =
  Return tt (@mkMux Table.env ["/api/{path...}"] None) /\
  @call Table.env
    (@StripPrefix Table.env Table.engine "/api" Table.echo) tt
    (@mkRequest Table.env "GET" "/api/users" "" tt) [] = ["/users"].
Proof.
  split.
  - refine (proj1 (proj2 (@Mount_cases Table.env Table.engine Table.echo
                            (@NewMux Table.env))) "/api" _).
    discriminate.
  - refine (f_equal (fun f => f [])
              (proj1 (proj2 (proj2 (proj2
                 (@Mount_cases Table.env Table.engine Table.echo
                    (@NewMux Table.env)))))
                 "/api" "/users" tt
                 (@mkRequest Table.env "GET" "/api/users" "" tt) _ _ _)).
    + discriminate.
    + reflexivity.
    + reflexivity.
Defined.

End MuxFacts.

(** ** The lifecycle *)

Module ServerFacts.
Import Server.
Section WithEnv.
Context `{Engine}.
Implicit Types (s : Server) (σ b : State) (w : World).
Implicit Types (l ok post : list (Servlet.Servlet World)).

Lemma stop_all_app l1 l2 w :
  stop_all (l1 ++ l2) w =
  ((stop_all l2 (stop_all l1 w).1).1,
   (stop_all l1 w).2 ++ (stop_all l2 (stop_all l1 w).1).2).
Proof.
  revert w. induction l1 as [|serv l1 IH]; intros w; simpl.
  - by destruct (stop_all l2 w).
  - destruct (Servlet.Stop serv w) as [err w1]. rewrite IH.
    destruct (stop_all l1 w1) as [w2 errs]. simpl.
    destruct (stop_all l2 w2) as [w3 errs']. simpl.
    by destruct err.
Qed.

Lemma stopped_refl s n σ : stopped s n n σ = σ.
Proof.
  unfold stopped. rewrite Nat.sub_diag. simpl.
  rewrite !app_nil_r. by destruct σ.
Qed.

Lemma do_Stop_stopped s n hi σ :
  (n < hi)%nat -> (n < length (servs s))%nat ->
  do_Stop s n (stopped s (S n) hi σ) = Some (stopped s n hi σ).
Proof.
  intros Hhi Hn. destruct (lookup_lt_is_Some_2 _ _ Hn) as [serv Hserv].
  unfold do_Stop. rewrite Hserv. unfold stopped.
  replace (hi - n)%nat with (S (hi - S n)) by lia.
  rewrite (drop_S _ _ _ Hserv). cbn [take seq rev].
  set (l := rev (take (hi - S n) (drop (S n) (servs s)))).
  rewrite fmap_app, stop_all_app. cbn [world calls stdlog].
  destruct (stop_all l (world σ)) as [w1 errs]. cbn [fst snd stop_all].
  destruct (Servlet.Stop serv w1) as [[e|] w2]; simpl;
    rewrite <- ?app_assoc, ?app_nil_r; done.
Qed.

Lemma rollback_stopped s n hi σ :
  (n <= hi)%nat -> (n <= length (servs s))%nat ->
  rollback s n (stopped s n hi σ) = Return tt (stopped s 0 hi σ).
Proof.
  induction n as [|j IH]; intros Hhi Hn; simpl; [done|].
  rewrite do_Stop_stopped by lia. apply IH; lia.
Qed.

Lemma rollback_spec s n σ :
  (n <= length (servs s))%nat ->
  rollback s n σ = Return tt (stopped s 0 n σ).
Proof.
  intros Hn. rewrite <- (stopped_refl s n σ) at 1.
  by apply rollback_stopped.
Qed.

Lemma start_loop_ok ctx s i l σ w' :
  start_all ctx l (world σ) = Some w' ->
  start_loop ctx s i l σ =
  Return None
    (mkState w'
       (calls σ ++ ((fun j => call_Start j ctx) <$> seq i (length l)))
       (stdlog σ) (coordinators σ) (stoppers σ) (next_id σ)).
Proof.
  revert i σ. induction l as [|serv l IH]; intros i σ Hall; simpl in *.
  - rewrite app_nil_r. destruct σ; simpl in *. congruence.
  - unfold do_Start. destruct (Servlet.Start serv ctx (world σ)) as [[e|] w1];
      [done|].
    rewrite (IH (S i) (mkState w1 (calls σ ++ [call_Start i ctx])
                         (stdlog σ) (coordinators σ) (stoppers σ)
                         (next_id σ)) Hall).
    simpl. by rewrite <- app_assoc.
Qed.

Lemma start_loop_fail ctx s i ok f post σ w1 e w2 :
  start_all ctx ok (world σ) = Some w1 ->
  Servlet.Start f ctx w1 = (Some e, w2) ->
  (i + length ok <= length (servs s))%nat ->
  start_loop ctx s i (ok ++ f :: post) σ =
  Return (Some e)
    (stopped s 0 (i + length ok)
       (mkState w2
          (calls σ ++
           ((fun j => call_Start j ctx) <$> seq i (S (length ok))))
          (stdlog σ) (coordinators σ) (stoppers σ) (next_id σ))).
Proof.
  revert i σ. induction ok as [|serv ok IH]; intros i σ Hall Hf Hlen.
  - simpl in *. injection Hall as <-. unfold do_Start. rewrite Hf.
    rewrite rollback_spec by lia. by rewrite Nat.add_0_r.
  - simpl in *. unfold do_Start.
    destruct (Servlet.Start serv ctx (world σ)) as [[e'|] w0]; [done|].
    rewrite (IH (S i) (mkState w0 (calls σ ++ [call_Start i ctx])
                         (stdlog σ) (coordinators σ) (stoppers σ)
                         (next_id σ)) Hall Hf) by (simpl; lia).
    simpl.
    rewrite <- app_assoc. simpl.
    by replace (i + S (length ok))%nat with (S (i + length ok)) by lia.
Qed.

Lemma start_all_cases ctx l w :
  (exists w', start_all ctx l w = Some w') \/
  (exists ok f post w1 e w2,
     l = ok ++ f :: post /\ start_all ctx ok w = Some w1 /\
     Servlet.Start f ctx w1 = (Some e, w2)).
Proof.
  revert w. induction l as [|serv l IH]; intros w; simpl.
  - left. eauto.
  - destruct (Servlet.Start serv ctx w) as [[e|] w1] eqn:E.
    + right. exists [], serv, l, w, e, w1. eauto.
    + destruct (IH w1) as [[w' Hw']|(ok & f & post & w2 & e & w3 & -> & Hok & Hf)].
      * left. eauto.
      * right. exists (serv :: ok), f, post, w2, e, w3. simpl.
        rewrite E. eauto.
Qed.

Lemma Start_ok ctx s σ host port w' :
  SplitHostPort (Addr (opts s)) = (host, port, None) ->
  start_all ctx (servs s) (world σ) = Some w' ->
  Start ctx s σ =
  Return None
    (mkState w'
       (calls σ ++
        ((fun j => call_Start j ctx) <$> seq 0 (length (servs s))) ++
        [call_ListenAndServe (server_of s σ)])
       (stdlog σ)
       (coordinators σ ++ [CoRecv (exit s) (server_of s σ) (lctx_of σ)])
       (stoppers σ) (S (next_id σ))).
Proof.
  intros Haddr Hall. unfold Start. rewrite Haddr.
  rewrite (start_loop_ok _ _ _ _ _ _ Hall). simpl.
  by rewrite <- app_assoc.
Qed.

Lemma Start_fail ctx s σ host port ok f post w1 e w2 :
  SplitHostPort (Addr (opts s)) = (host, port, None) ->
  servs s = ok ++ f :: post ->
  start_all ctx ok (world σ) = Some w1 ->
  Servlet.Start f ctx w1 = (Some e, w2) ->
  Start ctx s σ =
  Return (Some e)
    (mkState (stop_all (rev ok) w2).1
       (calls σ ++
        ((fun j => call_Start j ctx) <$> seq 0 (S (length ok))) ++
        (call_Stop <$> rev (seq 0 (length ok))))
       (stdlog σ ++ (stop_all (rev ok) w2).2)
       (coordinators σ) (stoppers σ) (next_id σ)).
Proof.
  intros Haddr Hservs Hok Hf. unfold Start. rewrite Haddr, Hservs.
  rewrite (start_loop_fail _ _ _ _ _ _ _ _ _ _ Hok Hf).
  - unfold stopped. cbn [Nat.add world calls stdlog coordinators stoppers
                           next_id].
    rewrite Hservs, Nat.sub_0_r, drop_0, take_app_length.
    by rewrite <- app_assoc.
  - rewrite Hservs, length_app. simpl. lia.
Qed.

Lemma Start_nil_inv ctx s σ σ1 :
  Start ctx s σ = Return None σ1 ->
  exists w',
    start_all ctx (servs s) (world σ) = Some w' /\
    σ1 =
    mkState w'
      (calls σ ++
       ((fun j => call_Start j ctx) <$> seq 0 (length (servs s))) ++
       [call_ListenAndServe (server_of s σ)])
      (stdlog σ)
      (coordinators σ ++ [CoRecv (exit s) (server_of s σ) (lctx_of σ)])
      (stoppers σ) (S (next_id σ)).
Proof.
  intros HS.
  destruct (SplitHostPort (Addr (opts s))) as [[host port] [e|]] eqn:Haddr.
  { unfold Start in HS. by rewrite Haddr in HS. }
  destruct (start_all_cases ctx (servs s) (world σ))
    as [[w' Hw']|(ok & f & post & w1 & e & w2 & Hs & Hok & Hf)].
  - rewrite (Start_ok _ _ _ _ _ _ Haddr Hw') in HS.
    injection HS as <-. eauto.
  - rewrite (Start_fail _ _ _ _ _ _ _ _ _ _ _ Haddr Hs Hok Hf) in HS.
    discriminate.
Qed.

Lemma fmap_rev {A B} (f : A -> B) (l : list A) : f <$> rev l = rev (f <$> l).
Proof.
  induction l as [|x l IH]; simpl; [done|]. by rewrite fmap_app, IH.
Qed.

Lemma count_rev (p : Call -> bool) (l : list Call) :
  length (List.filter p (rev l)) = length (List.filter p l).
Proof. by rewrite List.filter_rev, List.length_rev. Qed.

Lemma count_app (p : Call -> bool) (l1 l2 : list Call) :
  length (List.filter p (l1 ++ l2)) =
  (length (List.filter p l1) + length (List.filter p l2))%nat.
Proof. by rewrite List.filter_app, length_app. Qed.

Lemma starts_of_app j (l1 l2 : list Call) :
  starts_of j (l1 ++ l2) = (starts_of j l1 + starts_of j l2)%nat.
Proof. apply count_app. Qed.

Lemma stops_of_app j (l1 l2 : list Call) :
  stops_of j (l1 ++ l2) = (stops_of j l1 + stops_of j l2)%nat.
Proof. apply count_app. Qed.

Lemma stops_of_rev j (l : list Call) : stops_of j (rev l) = stops_of j l.
Proof. apply count_rev. Qed.

Lemma starts_of_Starts j ctx a n :
  starts_of j ((fun k => call_Start k ctx) <$> seq a n) =
  if bool_decide (a <= j < a + n)%nat then 1%nat else 0%nat.
Proof.
  unfold starts_of, fmap. revert a. induction n as [|n IH]; intros a; simpl.
  - rewrite bool_decide_eq_false_2; [done|lia].
  - case_bool_decide; simpl; rewrite (IH (S a));
      repeat case_bool_decide; lia.
Qed.

Lemma stops_of_Stops j a n :
  stops_of j (call_Stop <$> seq a n) =
  if bool_decide (a <= j < a + n)%nat then 1%nat else 0%nat.
Proof.
  unfold stops_of, fmap. revert a. induction n as [|n IH]; intros a; simpl.
  - rewrite bool_decide_eq_false_2; [done|lia].
  - case_bool_decide; simpl; rewrite (IH (S a));
      repeat case_bool_decide; lia.
Qed.

Lemma starts_of_Stops j (l : list nat) : starts_of j (call_Stop <$> l) = 0%nat.
Proof. unfold starts_of. by induction l. Qed.

Lemma stops_of_Starts j ctx (l : list nat) :
  stops_of j ((fun k => call_Start k ctx) <$> l) = 0%nat.
Proof. unfold stops_of. by induction l. Qed.

(** C1.  On a valid address, when the servlets before index [i] start and
    the one of index [i] fails with [e], [Start] returns [e]; the calls it
    made are [Start] on the indices 0 to [i] in order, then [Stop] on the
    indices [i - 1] down to 0, so each servlet before [i] is started once
    and stopped once, the one of index [i] is started once and never
    stopped and the ones after it are not called at all; the errors of the
    rollback are logged and nothing else changes: no goroutine is left
    behind. *)
Theorem Start_rollback ctx s σ host port ok f post w1 e w2 :
  SplitHostPort (Addr (opts s)) = (host, port, None) ->
  servs s = ok ++ f :: post ->
  start_all ctx ok (world σ) = Some w1 ->
  Servlet.Start f ctx w1 = (Some e, w2) ->
  let i := length ok in
  let made :=
    ((fun j => call_Start j ctx) <$> seq 0 (S i)) ++
    (call_Stop <$> rev (seq 0 i)) in
  Start ctx s σ =
  Return (Some e)
    (mkState (stop_all (rev ok) w2).1 (calls σ ++ made)
       (stdlog σ ++ (stop_all (rev ok) w2).2)
       (coordinators σ) (stoppers σ) (next_id σ)) /\
  forall j,
    starts_of j made = (if bool_decide (j <= i)%nat then 1 else 0)%nat /\
    stops_of j made = (if bool_decide (j < i)%nat then 1 else 0)%nat.
Proof.
  intros Haddr Hservs Hok Hf i made. split.
  - by apply (Start_fail _ _ _ _ _ _ _ _ _ _ _ Haddr Hservs Hok Hf).
  - intros j. subst made.
    rewrite starts_of_app, stops_of_app, starts_of_Starts, stops_of_Starts,
      starts_of_Stops, fmap_rev, stops_of_rev, stops_of_Stops.
    repeat case_bool_decide; lia.
Qed.

(** C10.  When the address does not split into host and port, [Start]
    returns the error of the split and the state is the one it was entered
    with: no servlet is called, no goroutine is made.  The empty address
    is such an address. *)
Theorem Start_invalid_address ctx s σ :
  (forall host port e,
     SplitHostPort (Addr (opts s)) = (host, port, Some e) ->
     Start ctx s σ = Return (Some e) σ) /\
  (Addr (opts s) = "" ->
   Start ctx s σ = Return (Some (AddrError "missing port in address" "")) σ).
Proof.
  split.
  - intros host port e Haddr. unfold Start. by rewrite Haddr.
  - intros Haddr. unfold Start. by rewrite Haddr.
Qed.

(** *** One call of [Stop] after [Start] *)

Lemma do_Stop_with_threads s n cs ts σ :
  do_Stop s n (with_threads cs ts σ) = with_threads cs ts <$> do_Stop s n σ.
Proof.
  unfold do_Stop. destruct (servs s !! n) as [serv|]; [|done]. simpl.
  by destruct (Servlet.Stop serv (world σ)) as [[e|] w].
Qed.

Ltac solo :=
  repeat match goal with
    | H : [_] !! _ = Some _ |- _ =>
        apply list_lookup_singleton_Some in H;
        destruct H as [-> H]; try discriminate H;
        inversion H; subst; clear H
    | H : [] !! _ = Some _ |- _ => by rewrite lookup_nil in H
    end.


Lemma st_stopping_all s b ctx server lctx :
  st_stopping s b ctx server lctx (length (servs s)) =
  mkState (world b) (calls b) (stdlog b)
    [CoStops (length (servs s)) (next_id b) server lctx]
    [StRecv ctx (next_id b)] (S (next_id b)).
Proof. unfold st_stopping. by rewrite stopped_refl. Qed.

Lemma st_stopping_step s b ctx server lctx m :
  (S m <= length (servs s))%nat ->
  do_Stop s m (st_stopping s b ctx server lctx (S m)) =
  Some (with_threads [CoStops (S m) (next_id b) server lctx]
          [StRecv ctx (next_id b)]
          (stopped s m (length (servs s))
             (mkState (world b) (calls b) (stdlog b) [] []
                (S (next_id b))))).
Proof.
  intros Hm. unfold st_stopping.
  rewrite do_Stop_with_threads, do_Stop_stopped by lia. done.
Qed.

Lemma st_final_eq s b ctx server lctx :
  st_final s b server lctx =
  let σ := st_replying s b ctx server lctx in
  mkState (world σ) (calls σ ++ [call_cancel lctx]) (stdlog σ)
    [CoDone] [StReturned (Shutdown server lctx
                            (world (st_stopping s b ctx server lctx 0))).1]
    (next_id σ).
Proof.
  unfold st_final, st_replying, st_stopping, stopped, with_threads. simpl.
  rewrite Nat.sub_0_r, drop_0, firstn_all. f_equal.
  by rewrite <- !app_assoc.
Qed.

Lemma step_made s b ctx server lctx σ' :
  started s b server lctx ->
  step s (Stop ctx b) σ' <-> σ' = st_sending s b ctx server lctx.
Proof.
  intros [Hco Hst]. destruct b as [w cl lg cs ts id]. simpl in *. subst.
  split.
  - intros Hstep. inversion Hstep; subst; simpl in *; solo. done.
  - intros ->. by apply (step_make s 0 ctx).
Qed.

Lemma step_sending s b ctx server lctx σ' :
  step s (st_sending s b ctx server lctx) σ' <->
  σ' = st_stopping s b ctx server lctx (length (servs s)).
Proof.
  rewrite st_stopping_all. split.
  - intros Hstep. inversion Hstep; subst; simpl in *; solo. done.
  - intros ->.
    by apply (step_handoff s 0 0 ctx (exit s) (next_id b) server lctx).
Qed.

Lemma step_stopping_S s b ctx server lctx m σ' :
  (S m <= length (servs s))%nat ->
  step s (st_stopping s b ctx server lctx (S m)) σ' <->
  σ' = st_stopping s b ctx server lctx m.
Proof.
  intros Hm. pose proof (st_stopping_step s b ctx server lctx m Hm) as Hdo.
  split.
  - intros Hstep. inversion Hstep; subst; simpl in *; solo.
    rewrite Hdo in *. simplify_eq. done.
  - intros ->.
    exact (step_stop s 0 m (next_id b) server lctx
             (st_stopping s b ctx server lctx (S m)) _ eq_refl Hdo).
Qed.

Lemma step_stopping_0 s b ctx server lctx σ' :
  step s (st_stopping s b ctx server lctx 0) σ' <->
  σ' = st_replying s b ctx server lctx.
Proof.
  split.
  - intros Hstep. inversion Hstep; subst; simpl in *; solo. done.
  - intros ->.
    exact (step_shutdown s 0 (next_id b) server lctx
             (st_stopping s b ctx server lctx 0) eq_refl).
Qed.

Lemma step_replying s b ctx server lctx σ' :
  step s (st_replying s b ctx server lctx) σ' <->
  σ' = st_final s b server lctx.
Proof.
  rewrite (st_final_eq s b ctx). split.
  - intros Hstep. inversion Hstep; subst; simpl in *; solo. done.
  - intros ->.
    exact (step_reply s 0 0 (next_id b) _ lctx ctx
             (st_replying s b ctx server lctx) eq_refl eq_refl).
Qed.

Lemma step_final s b server lctx σ' : ~ step s (st_final s b server lctx) σ'.
Proof. intros Hstep. inversion Hstep; subst; simpl in *; solo. Qed.

Lemma path_step s b ctx server lctx σ σ' :
  started s b server lctx ->
  on_path s b ctx server lctx σ -> step s σ σ' ->
  on_path s b ctx server lctx σ'.
Proof.
  intros Hb Hσ Hstep. destruct Hσ as [| |[|m] Hm| |].
  - apply (step_made _ _ _ _ _ _ Hb) in Hstep as ->. constructor.
  - apply step_sending in Hstep as ->. by constructor.
  - apply step_stopping_0 in Hstep as ->. constructor.
  - apply step_stopping_S in Hstep as ->; [|done]. constructor. lia.
  - apply step_replying in Hstep as ->. constructor.
  - by apply step_final in Hstep.
Qed.

Lemma path_reachable s b ctx server lctx σ :
  started s b server lctx ->
  rtc (step s) (Stop ctx b) σ -> on_path s b ctx server lctx σ.
Proof.
  intros Hb Hrtc. apply rtc_nsteps in Hrtc as [k Hk]. revert σ Hk.
  induction k as [|k IH]; intros σ Hk.
  - inversion Hk; subst. constructor.
  - apply nsteps_inv_r in Hk as (σm & Hm & Hstep).
    eapply path_step; eauto.
Qed.

Lemma stopping_to_final s b ctx server lctx n :
  (n <= length (servs s))%nat ->
  rtc (step s) (st_stopping s b ctx server lctx n)
    (st_final s b server lctx).
Proof.
  induction n as [|m IH]; intros Hn.
  - eapply rtc_l; [by apply step_stopping_0|].
    eapply rtc_l; [by apply step_replying|]. done.
  - eapply rtc_l; [by apply step_stopping_S|]. apply IH. lia.
Qed.

Lemma path_to_final s b ctx server lctx σ :
  started s b server lctx ->
  on_path s b ctx server lctx σ ->
  rtc (step s) σ (st_final s b server lctx).
Proof.
  intros Hb Hσ. destruct Hσ as [| |n Hn| |].
  - eapply rtc_l; [by apply (step_made _ _ _ _ _ _ Hb)|].
    eapply rtc_l; [by apply step_sending|]. by apply stopping_to_final.
  - eapply rtc_l; [by apply step_sending|]. by apply stopping_to_final.
  - by apply stopping_to_final.
  - eapply rtc_l; [by apply step_replying|]. done.
  - done.
Qed.

Lemma path_returned s b ctx server lctx σ r :
  started s b server lctx ->
  on_path s b ctx server lctx σ ->
  stoppers σ !! 0%nat = Some (StReturned r) ->
  σ = st_final s b server lctx.
Proof.
  intros [Hco Hst] Hσ Hr. destruct Hσ; simpl in Hr; try done.
  by rewrite Hst in Hr.
Qed.

Lemma Start_started ctx s σ0 σ1 :
  coordinators σ0 = [] -> stoppers σ0 = [] ->
  Start ctx s σ0 = Return None σ1 ->
  started s σ1 (server_of s σ0) (lctx_of σ0) /\
  next_id σ1 = S (next_id σ0).
Proof.
  intros Hco Hst (w' & _ & ->)%Start_nil_inv. unfold started. simpl.
  by rewrite Hco, Hst.
Qed.

(** C2.  After a [Start] that returned nil, one call of [Stop] runs to the
    state [final] and every run of it does: [Stop] was called on the
    servlets of indices [n - 1] down to 0, once each, whatever the calls
    returned; their errors are logged; then the engine was shut down and
    what [Shutdown] returned is what [Stop] returns. *)
Theorem Stop_reverse_order ctx0 ctx s σ0 σ1 :
  coordinators σ0 = [] -> stoppers σ0 = [] ->
  Start ctx0 s σ0 = Return None σ1 ->
  let server := server_of s σ0 in
  let lctx := lctx_of σ0 in
  let n := length (servs s) in
  let w := (stop_all (rev (servs s)) (world σ1)).1 in
  let final :=
    mkState (Shutdown server lctx w).2
      (calls σ1 ++ (call_Stop <$> rev (seq 0 n)) ++
       [call_Shutdown server lctx; call_cancel lctx])
      (stdlog σ1 ++ (stop_all (rev (servs s)) (world σ1)).2)
      [CoDone] [StReturned (Shutdown server lctx w).1] (S (next_id σ1)) in
  rtc (step s) (Stop ctx σ1) final /\
  (forall σ, rtc (step s) (Stop ctx σ1) σ -> rtc (step s) σ final) /\
  (forall σ r,
     rtc (step s) (Stop ctx σ1) σ ->
     stoppers σ !! 0%nat = Some (StReturned r) -> σ = final) /\
  (forall j,
     stops_of j (call_Stop <$> rev (seq 0 n)) =
     if bool_decide (j < n)%nat then 1%nat else 0%nat).
Proof.
  intros Hco Hst HS server lctx n w final.
  destruct (Start_started _ _ _ _ Hco Hst HS) as [Hb _].
  change final with (st_final s σ1 server lctx).
  split; [|split; [|split]].
  - apply (path_to_final s σ1 ctx server lctx); [done|constructor].
  - intros σ Hσ. apply (path_to_final s σ1 ctx server lctx); [done|].
    by apply path_reachable.
  - intros σ r Hσ Hr. apply (path_returned s σ1 ctx server lctx σ r);
      [done| |done].
    by apply path_reachable.
  - intros j. rewrite fmap_rev, stops_of_rev, stops_of_Stops.
    repeat case_bool_decide; lia.
Qed.

(** *** A call of [Stop] that finds no receiver *)

Lemma do_Stop_threads s n σ σ' :
  do_Stop s n σ = Some σ' ->
  coordinators σ' = coordinators σ /\ stoppers σ' = stoppers σ.
Proof.
  unfold do_Stop. destruct (servs s !! n) as [serv|]; [|done].
  destruct (Servlet.Stop serv (world σ)) as [[e|] w]; simpl;
    intros [= <-]; done.
Qed.

Lemma no_receiver_step s σ σ' :
  no_receiver σ -> step s σ σ' -> no_receiver σ'.
Proof.
  intros Hno Hstep j' ch' server' lctx'.
  inversion Hstep as
    [k ctx σx Hk | k j ctx ch ex server lctx σx Hk Hj
    | j n ex server lctx σx σy Hj Hdo | j ex server lctx σx Hj
    | j k ex r lctx ctx σx Hj Hk]; subst; simpl.
  - apply Hno.
  - by destruct (Hno j ch server lctx).
  - destruct (do_Stop_threads _ _ _ _ Hdo) as [-> _].
    intros [(_ & ? & _)|[_ Hl]]%list_lookup_insert_Some; [done|].
    by apply Hno in Hl.
  - intros [(_ & ? & _)|[_ Hl]]%list_lookup_insert_Some; [done|].
    by apply Hno in Hl.
  - intros [(_ & ? & _)|[_ Hl]]%list_lookup_insert_Some; [done|].
    by apply Hno in Hl.
Qed.

Lemma waiting_step s σ σ' k t :
  no_receiver σ -> stoppers σ !! k = Some t -> waiting t -> step s σ σ' ->
  exists t', stoppers σ' !! k = Some t' /\ waiting t'.
Proof.
  intros Hno Ht Hw Hstep.
  inversion Hstep as
    [k0 ctx σx Hk | k0 j ctx ch ex server lctx σx Hk Hj
    | j n ex server lctx σx σy Hj Hdo | j ex server lctx σx Hj
    | j k0 ex r lctx ctx σx Hj Hk]; subst; simpl.
  - destruct (decide (k0 = k)) as [->|Hne].
    + exists (StSend ctx (exit s) (next_id σ)). split; [|exact I].
      apply list_lookup_insert_eq. by eapply lookup_lt_Some.
    + exists t. by rewrite list_lookup_insert_ne.
  - by destruct (Hno j ch server lctx).
  - destruct (do_Stop_threads _ _ _ _ Hdo) as [_ ->]. eauto.
  - eauto.
  - destruct (decide (k0 = k)) as [->|Hne].
    + rewrite Ht in Hk. injection Hk as ->. done.
    + exists t. by rewrite list_lookup_insert_ne.
Qed.

Lemma waiting_forever s σ σ' k t :
  no_receiver σ -> stoppers σ !! k = Some t -> waiting t ->
  rtc (step s) σ σ' ->
  no_receiver σ' /\ exists t', stoppers σ' !! k = Some t' /\ waiting t'.
Proof.
  intros Hno Ht Hw Hrtc. revert t Hno Ht Hw.
  induction Hrtc as [σ|σ σm σ' Hstep _ IH]; intros t Hno Ht Hw.
  - eauto.
  - destruct (waiting_step _ _ _ _ _ Hno Ht Hw Hstep) as (tm & Htm & Hwm).
    apply (IH tm); [by eapply no_receiver_step|done|done].
Qed.


End WithEnv.

Import Lifecycle.

Lemma Start_rollback_witness :
  @Start env Background abc fresh =
  Return (Some boom)
    (@mkState env ["start A"; "start B"; "stop A"]
       [call_Start 0 Background; call_Start 1 Background; call_Stop 0]
       [errorString "stop A failed"] [] [] 1%nat).
Proof.
  refine (proj1 (@Start_rollback env Background abc fresh "" "8092"
                   [mock "A" None (Some (errorString "stop A failed"))]
                   (mock "B" (Some boom) None) [mock "C" None None]
                   ["start A"] boom ["start A"; "start B"] _ _ _ _));
    reflexivity.
Defined.

Lemma Start_invalid_address_witness :
  @Start env Background no_port fresh =
  Return (Some (AddrError "missing port in address" "localhost")) fresh /\
  @Start env Background
    (@mkServer env (@mkOptions env "" tt) tt [mock "A" None None] 0%nat)
    fresh =
  Return (Some (AddrError "missing port in address" "")) fresh.
Proof.
  split.
  - refine (proj1 (@Start_invalid_address env Background no_port fresh)
              "" "" _ _).
    reflexivity.
  - refine (proj2 (@Start_invalid_address env Background
                     (@mkServer env (@mkOptions env "" tt) tt
                        [mock "A" None None] 0%nat) fresh) _).
    reflexivity.
Defined.

Lemma Stop_reverse_order_witness :
  rtc (@step env engine s123) (Stop Background started123) final123 /\
  world final123 =
  ["start 1"; "start 2"; "start 3"; "stop 3"; "stop 2"; "stop 1";
   "shutdown: drained"] /\
  stdlog final123 = [errorString "stop 2 failed"] /\
  stoppers final123 = [StReturned None].
Proof.
  split; [|by vm_compute].
  refine (proj1 (@Stop_reverse_order env engine Background Background s123
                   fresh started123 _ _ _)); reflexivity.
Defined.


(** C3.  [Stop] called with a context whose deadline has passed, on the
    started server [s123]: the run ends with the engine shut down under
    [lctx], the context [Start] derived from [context.Background()], which
    has no deadline, and [Stop] returns nil after a full drain; under the
    context of the caller the engine would have given up with
    [context.DeadlineExceeded].  The context passed to [Stop] is not
    used. *)
Theorem Stop_deadline_ignored :
  let ctx := WithDeadline Background 0 in
  let server := server_of s123 fresh in
  let lctx := WithCancel Background 1 in
  rtc (@step env engine s123) (Stop ctx started123) final123 /\
  (forall ctx', rtc (@step env engine s123) (Stop ctx' started123) final123)
  /\
  stoppers final123 = [StReturned None] /\
  calls final123 =
  calls started123 ++
  [call_Stop 2; call_Stop 1; call_Stop 0; call_Shutdown server lctx;
   call_cancel lctx] /\
  Deadline lctx = None /\
  Deadline ctx = Some 0 /\
  (@Shutdown env engine server ctx
     ["start 1"; "start 2"; "start 3"; "stop 3"; "stop 2"; "stop 1"]).1 =
  Some DeadlineExceeded.
Proof.
  assert (forall c, rtc (@step env engine s123) (Stop c started123) final123)
    as Hall.
  { intros c.
    apply (path_to_final s123 started123 c (server_of s123 fresh)
             (lctx_of fresh)); [by split|constructor]. }
  split; [apply Hall|]. split; [exact Hall|]. by vm_compute.
Qed.

End ServerFacts.

(** * Further properties *)

(** ** The response wrapper, any sequence of operations *)

Module ResponseMore.
Import Response ResponseFacts.
Section WithWorld.
Context {World Conn ReadWriter PushOptions : Type}.
Abbreviation ResponseWriter :=
  (Response.ResponseWriter World Conn ReadWriter PushOptions).
Abbreviation response :=
  (Response.response World Conn ReadWriter PushOptions).
Abbreviation St := (Response.St World).
Implicit Types (w : ResponseWriter) (r : response) (σ : St).

Lemma run_ops_on_committed ops r σ :
  committed r = true -> in_int64 (size r) ->
  let sink := sink_Writes (ResponseWriter_ r) (bodies ops) (world σ) in
  (run_ops ops r σ).1 =
  mkResponse (ResponseWriter_ r) (status r)
    (wrap64 (size r + total sink.1.*1)) true /\
  world (run_ops ops r σ).2 = sink.2 /\
  stdlog (run_ops ops r σ).2 =
  stdlog σ ++ replicate (header_writes ops) late_header.
Proof.
  revert r σ. induction ops as [|[code|p] ops IH]; intros r σ Hc Hs; simpl.
  - rewrite Z.add_0_r, wrap64_id, app_nil_r by done.
    destruct r; simpl in *. by subst.
  - rewrite WriteHeader_committed by done.
    destruct (IH r (log_Printf late_header σ) Hc Hs) as (E1 & E2 & E3).
    unfold late_header in *. simpl in *. rewrite E1, E2, E3. simpl.
    by rewrite <- app_assoc.
  - rewrite Write_committed by done.
    set (o := rw_Write (ResponseWriter_ r) p (world σ)).
    set (r1 := mkResponse _ _ _ _). set (σ1 := mkSt _ _).
    destruct (IH r1 σ1) as (E1 & E2 & E3);
      [done | apply wrap64_in_int64 |].
    simpl in *. rewrite E1, E2, E3. clear E1 E2 E3 IH.
    destruct o as [res x1]. simpl.
    destruct (sink_Writes (ResponseWriter_ r) (bodies ops) x1) as [rs x2].
    simpl. rewrite wrap64_add_l. repeat split. do 2 f_equal.
    unfold fmap. lia.
Qed.

(** X1.  Any non-empty sequence of header-writes and body-writes on a new
    wrapper: the status is the code of the first operation when that is a
    header-write and 200 otherwise; the underlying writer receives one
    [WriteHeader] with that status and then the bodies in order; every
    later header-write only adds a line to the log; the size is the sum of
    the counts the writer reported for the bodies. *)
Theorem run_ops_new_wrapper w ops σ :
  ops <> [] ->
  let sink :=
    sink_Writes w (bodies ops)
      (rw_WriteHeader w (first_status ops) (world σ)) in
  let out := run_ops ops (NewResponse (inl w)) σ in
  out.1 = mkResponse w (first_status ops) (wrap64 (total sink.1.*1)) true /\
  world out.2 = sink.2 /\
  stdlog out.2 =
  stdlog σ ++ replicate (header_writes (tail ops)) late_header.
Proof.
  destruct ops as [|[code|p] ops]; [done|..]; intros _.
  - cbn [run_ops first_status bodies tail].
    unfold NewResponse, WriteHeader. cbn [committed].
    set (r1 := mkResponse _ _ _ _). set (σ1 := mkSt _ _).
    destruct (run_ops_on_committed ops r1 σ1) as (E1 & E2 & E3);
      [done | done |].
    simpl in *. by rewrite E1, E2, E3.
  - cbn [run_ops first_status bodies tail sink_Writes].
    rewrite Write_fresh.
    set (o := rw_Write w p (rw_WriteHeader w StatusOK (world σ))).
    set (r1 := mkResponse _ _ _ _). set (σ1 := mkSt _ _).
    destruct (run_ops_on_committed ops r1 σ1) as (E1 & E2 & E3);
      [done | apply wrap64_in_int64 |].
    simpl in *. rewrite E1, E2, E3. clear E1 E2 E3.
    destruct o as [res x1]. simpl.
    destruct (sink_Writes w (bodies ops) x1) as [rs x2]. simpl.
    by rewrite wrap64_add_l.
Qed.



(** X3.  An error that the flush of the underlying writer reports is
    dropped: when the writer has a [FlushError] method and it fails with an
    error that does not wrap [http.ErrNotSupported], [Flush] returns
    normally in the world the failed flush left and logs nothing; when
    the error wraps [http.ErrNotSupported], [Flush] panics although the
    writer has the method. *)
Theorem Flush_drops_errors r σ fe e :
  rw_FlushError (Unwrap r) = Some fe ->
  (fe (world σ)).1 = Some e ->
  if errors_Is_ErrNotSupported e
  then exists v, Flush r σ = Panic v (mkSt (fe (world σ)).2 (stdlog σ))
  else Flush r σ = Return tt (mkSt (fe (world σ)).2 (stdlog σ)).
Proof.
  unfold Unwrap, Flush. intros Hfe He.
  destruct (ResponseWriter_ r) as [T wh wr fe' fl hj pu un].
  simpl in Hfe. subst fe'. cbn [controller_Flush].
  destruct (fe (world σ)) as [err x]. simpl in *. subst err.
  destruct (errors_Is_ErrNotSupported e); eauto.
Qed.

(** X4.  [Hijack] looks for a hijacker along [Unwrap], [Push] only at the
    writer it wraps: through a writer that is neither and unwraps to a
    hijacker, [Hijack] is the hijack of that inner writer, while [Push]
    fails without touching the world, whether or not the inner writer is
    a pusher. *)
Theorem Hijack_unwraps_Push_does_not r σ w' h :
  rw_Hijack (Unwrap r) = None ->
  rw_Push (Unwrap r) = None ->
  rw_Unwrap (Unwrap r) = Some w' ->
  rw_Hijack w' = Some h ->
  Hijack r σ = ((h (world σ)).1, mkSt (h (world σ)).2 (stdlog σ)) /\
  forall target opts,
    exists msg, Push target opts r σ = (Some (errorString msg), σ).
Proof.
  unfold Unwrap, Hijack, Push. intros Hh Hp Hu Hh'.
  destruct (ResponseWriter_ r) as [T wh wr fe fl hj pu un].
  simpl in *. subst. cbn [controller_Hijack].
  destruct w' as [T' wh' wr' fe' fl' hj' pu' un']. simpl in *. subst.
  cbn [controller_Hijack]. split.
  - by destruct (h (world σ)).
  - eauto.
Qed.

End WithWorld.

Lemma run_ops_new_wrapper_witness :
  run_ops [op_Write Doubles.hello; op_WriteHeader 404; op_WriteHeader 500]
    (NewResponse (inl Probes.plain)) (mkSt [] []) =
  (mkResponse Probes.plain 200 5 true,
   mkSt ["WriteHeader"; "Write"] [late_header; late_header]).
Proof.
  pose proof (run_ops_new_wrapper Probes.plain
                [op_Write Doubles.hello; op_WriteHeader 404;
                 op_WriteHeader 500] (mkSt [] [])) as H.
  destruct H as (H1 & H2 & H3); [discriminate|].
  destruct (run_ops _ _ _) as [r [x lg]]. simpl in *.
  by rewrite H1, H2, H3.
Defined.


Lemma Flush_drops_errors_witness :
  Flush (NewResponse (inl Probes.failing_flush)) (mkSt [] []) =
  Return tt (mkSt ["FlushError"] []).
Proof.
  exact (Flush_drops_errors (NewResponse (inl Probes.failing_flush))
           (mkSt [] [])
           (fun x => (Some (errorString "broken pipe"),
                      Probes.line "FlushError" x))
           (errorString "broken pipe") eq_refl eq_refl).
Defined.

Lemma Hijack_unwraps_Push_does_not_witness :
  Hijack (NewResponse (inl (Probes.wrapping Probes.capable))) (mkSt [] []) =
  ((Some tt, Some tt, None), mkSt ["Hijack"] []) /\
  exists msg,
    Push "/static/style.css" tt
      (NewResponse (inl (Probes.wrapping Probes.capable))) (mkSt [] []) =
    (Some (errorString msg), mkSt [] []).
Proof.
  pose proof (Hijack_unwraps_Push_does_not
                (NewResponse (inl (Probes.wrapping Probes.capable)))
                (mkSt [] []) Probes.capable _
                eq_refl eq_refl eq_refl eq_refl) as [H1 H2].
  split; [exact H1|]. exact (H2 "/static/style.css" tt).
Defined.

End ResponseMore.

(** ** The router: rejected registrations, order of set-up *)

Module MuxMore.
Import Mux MuxFacts.
Section WithEnv.
Context `{Engine}.
Implicit Types (m : mux) (h sub : Handler) (ms : list (Handler -> Handler)).

(** X5.  [Handle] and [HandleFunc] reject an empty pattern, a nil handler
    and a nil handler function by a panic, the pattern being tested first,
    and then leave the router as it was: the engine is not called.  Every
    other registration is the engine's. *)
Theorem Handle_rejects pattern m :
  (forall hv f,
     Handle "" hv m = Panic (errorString "h3: invalid pattern") m /\
     HandleFunc "" f m = Panic (errorString "h3: invalid pattern") m) /\
  (pattern <> "" ->
   Handle pattern nil_Handler m = Panic (errorString "h3: nil handler") m /\
   Handle pattern nil_HandlerFunc m =
   Panic (errorString "h3: nil handler") m /\
   HandleFunc pattern None m = Panic (errorString "h3: nil handler") m /\
   forall f,
     Handle pattern (a_Handler (HandlerFunc f)) m =
     engine_Handle pattern (HandlerFunc f) m /\
     HandleFunc pattern (Some f) m =
     engine_Handle pattern (HandlerFunc f) m).
Proof.
  split.
  - intros hv f. by destruct hv, f.
  - intros Hp. unfold Handle, HandleFunc, register, registerErr.
    destruct (decide (pattern = "")); [done|].
    repeat split; unfold engine_Handle;
      by destruct (ServeMux_Handle pattern _ (mux_ m)).
Qed.

(** X6.  Routes and middlewares are set up independently: registering or
    mounting after [Use] gives the router that [Use] after the
    registration gives, and the handler lookup of a router does not see
    its middlewares. *)
Theorem Use_commutes_with_registration middleware m :
  (forall pattern hv,
     Handle pattern hv (Use middleware m) =
     on_state (Use middleware) (Handle pattern hv m)) /\
  (forall pattern f,
     HandleFunc pattern f (Use middleware m) =
     on_state (Use middleware) (HandleFunc pattern f m)) /\
  (forall pattern sub,
     Mount pattern sub (Use middleware m) =
     on_state (Use middleware) (Mount pattern sub m)) /\
  (forall ms r, Handler_ (Use_all ms m) r = Handler_ m r).
Proof.
  assert (forall pattern hv,
            register pattern hv (Use middleware m) =
            on_state (Use middleware) (register pattern hv m)) as Hreg.
  { intros pattern hv. unfold register, registerErr.
    destruct (decide (pattern = "")); [done|].
    destruct hv as [| |h]; [done..|]. simpl.
    by destruct (ServeMux_Handle pattern h (mux_ m)). }
  repeat split.
  - intros pattern hv. apply Hreg.
  - intros pattern f. apply Hreg.
  - intros pattern sub. unfold Mount.
    destruct (decide (pattern = "")); [done|].
    destruct (decide (pattern = "/")); apply Hreg.
  - intros ms r. unfold Handler_. by rewrite mux_Use_all.
Qed.

Lemma Mount_slash q sub m :
  q <> "" ->
  Mount (q +:+ "/") sub m =
  engine_Handle (q +:+ "/{path...}") (StripPrefix q sub) m.
Proof.
  intros Hq. unfold Mount.
  destruct (decide (q +:+ "/" = "")) as [E|_].
  { by apply append_nonempty_r in E. }
  destruct (decide (q +:+ "/" = "/")) as [E|_].
  { apply (f_equal String.length) in E. rewrite string_length_app in E.
    destruct q; [done|]. simpl in E. lia. }
  rewrite last_byte_app, drop_last_byte_app.
  rewrite bool_decide_eq_true_2.
  - simpl. apply register_handler. by apply append_nonempty_r.
  - rewrite string_length_app. simpl. lia.
Qed.

Lemma Mount_plain p sub m :
  p <> "" -> (forall q, p <> q +:+ "/") ->
  Mount p sub m = engine_Handle (p +:+ "/{path...}") (StripPrefix p sub) m.
Proof.
  intros Hp Hno. unfold Mount.
  destruct (decide (p = "")) as [E|_]; [done|].
  destruct (decide (p = "/")) as [E|_].
  { by destruct (Hno ""). }
  rewrite (bool_decide_eq_false_2 (last_byte p = Some "/"%char)).
  - rewrite andb_false_r. apply register_handler.
    by apply append_nonempty_r.
  - intros Hl. apply (Hno (drop_last_byte p)). by apply last_byte_inv.
Qed.

(** X7.  A trailing slash on the prefix makes no difference: for a
    non-empty prefix [p] that does not itself end in "/", mounting at
    [p] followed by "/" is mounting at [p]. *)
Theorem Mount_trailing_slash p sub m :
  p <> "" -> (forall q, p <> q +:+ "/") ->
  Mount (p +:+ "/") sub m = Mount p sub m.
Proof.
  intros Hp Hno. by rewrite Mount_slash, Mount_plain.
Qed.

Lemma chain_app ms1 ms2 h : chain (ms1 ++ ms2) h = chain ms1 (chain ms2 h).
Proof. unfold chain. by rewrite foldr_app. Qed.

(** X8.  A middleware that does not call the handler it is given hides
    all that was registered after it: the middlewares after it and the
    routes are never run, whatever they are. *)
Theorem Use_short_circuit ms1 ms2 middleware h0 :
  (forall next, middleware next = h0) ->
  (forall h,
     composed (Use_all (ms1 ++ middleware :: ms2) NewMux) h =
     composed (Use_all ms1 NewMux) h0) /\
  forall w r,
    ServeHTTP (Use_all (ms1 ++ middleware :: ms2) NewMux) w r =
    call (chain ms1 h0) (NewResponse w) r.
Proof.
  intros Hmw.
  assert (forall h, chain (ms1 ++ middleware :: ms2) h = chain ms1 h0) as Hc.
  { intros h. rewrite chain_app. simpl. by rewrite Hmw. }
  split.
  - intros h. by rewrite !composed_Use_all, Hc.
  - intros w r. by rewrite ServeHTTP_composed, composed_Use_all, Hc.
Qed.

Lemma prefix_first p s a b p' s' :
  p = String a p' -> s = String b s' -> a <> b -> String.prefix p s = false.
Proof.
  intros -> -> Hab. simpl. by destruct (ascii_dec a b).
Qed.

(** X17.  A prefix without a leading "/" mounts a handler that no request
    reaches the sub-router through: for a non-empty prefix [p] that does
    not end in "/", [Mount] registers [http.StripPrefix(p, sub)], and for
    every request whose path begins with "/" and not with [p] that handler
    is [http.NotFound]; the sub-router is not called. *)
Theorem Mount_without_leading_slash p sub m :
  p <> "" -> (forall q, p <> q +:+ "/") ->
  String.get 0 p <> Some "/"%char ->
  Mount p sub m = engine_Handle (p +:+ "/{path...}") (StripPrefix p sub) m /\
  forall w r,
    String.get 0 (URL_Path r) = Some "/"%char ->
    call (StripPrefix p sub) w r = NotFound w r.
Proof.
  intros Hp Hno Hfirst. split; [by apply Mount_plain|].
  intros w r Hr. unfold StripPrefix.
  destruct (decide (p = "")) as [E|_]; [done|]. simpl.
  assert (TrimPrefix (URL_Path r) p = URL_Path r) as ->.
  { unfold TrimPrefix. destruct p as [|a p']; [done|].
    destruct (URL_Path r) as [|b s']; [done|].
    simpl in Hfirst, Hr. injection Hr as ->.
    rewrite (prefix_first (String a p') (String "/"%char s') a "/"%char p' s');
      [done..|].
    intros ->. done. }
  rewrite bool_decide_eq_false_2; [done|lia].
Qed.

End WithEnv.

Lemma Mount_without_leading_slash_witness :
  @call Table.env (@StripPrefix Table.env Table.engine "api" Table.echo) tt
    (@mkRequest Table.env "GET" "/api/users" "" tt) [] =
  ["404 page not found"].
Proof.
  refine (f_equal (fun f => f [])
            (proj2 (@Mount_without_leading_slash Table.env Table.engine
                      "api" Table.echo (@NewMux Table.env) _ _ _)
               tt (@mkRequest Table.env "GET" "/api/users" "" tt) _)).
  - discriminate.
  - intros q E. apply (f_equal last_byte) in E.
    rewrite last_byte_app in E. discriminate.
  - discriminate.
  - reflexivity.
Defined.

Lemma Handle_rejects_witness :
  @Handle Table.env Table.engine "GET /test" nil_HandlerFunc
    (@NewMux Table.env) =
  Panic (errorString "h3: nil handler") (@NewMux Table.env).
Proof.
  refine (proj1 (proj2 (proj2 (@Handle_rejects Table.env Table.engine
                                 "GET /test" (@NewMux Table.env)) _))).
  discriminate.
Defined.

Lemma Mount_trailing_slash_witness :
  @Mount Table.env Table.engine "/api/" Table.echo (@NewMux Table.env) =
  @Mount Table.env Table.engine "/api" Table.echo (@NewMux Table.env).
Proof.
  refine (@Mount_trailing_slash Table.env Table.engine "/api" Table.echo
            (@NewMux Table.env) _ _).
  - discriminate.
  - intros q E. apply (f_equal last_byte) in E.
    rewrite last_byte_app in E. discriminate.
Defined.

Lemma Use_short_circuit_witness :
  @ServeHTTP Table.env Table.engine
    (Use_all
       ([around (Table.say "log before", Table.say "log after")] ++
        (fun _ => HandlerFunc (Table.say "401 unauthorized")) ::
        [around (Table.say "inner before", Table.say "inner after")])
       (@NewMux Table.env))
    tt (@mkRequest Table.env "GET" "/admin" "" tt) [] =
  ["log before"; "401 unauthorized"; "log after"].
Proof.
  refine (f_equal (fun f => f [])
            (proj2 (@Use_short_circuit Table.env Table.engine
                      [around (Table.say "log before", Table.say "log after")]
                      [around (Table.say "inner before",
                               Table.say "inner after")]
                      (fun _ => HandlerFunc (Table.say "401 unauthorized"))
                      (HandlerFunc (Table.say "401 unauthorized")) _)
               tt (@mkRequest Table.env "GET" "/admin" "" tt))).
  reflexivity.
Defined.

End MuxMore.

(** ** The lifecycle: set-up, successful start, calls of [Stop] *)

Module ServerMore.
Import Server ServerFacts.
Section WithEnv.
Context `{Engine}.
Implicit Types (s : Server) (σ b : State) (w : World).
Implicit Types (c : Component) (cs : list Component).

Lemma Register_ok c s s' :
  Register c s = Return tt s' ->
  servs s' = servs s ++ from_option (fun x => [x]) [] (as_Servlet c) /\
  opts s' = opts s /\ exit s' = exit s.
Proof.
  unfold Register.
  destruct (Mux_Mount (Prefix c) (Mux c) (mux s)) as [[] m|v' m]; [|done].
  intros [= <-]. simpl.
  destruct (as_Servlet c); simpl; by rewrite ?app_nil_r.
Qed.

Lemma Register_panic c s v s' :
  Register c s = Panic v s' ->
  servs s' = servs s /\ opts s' = opts s /\ exit s' = exit s.
Proof.
  unfold Register.
  destruct (Mux_Mount (Prefix c) (Mux c) (mux s)) as [[] m|v' m]; [done|].
  by intros [= <- <-].
Qed.

Lemma Register_all_opts cs s s' :
  Register_all cs s = Return tt s' -> opts s' = opts s.
Proof.
  revert s. induction cs as [|c cs IH]; intros s; simpl.
  - by intros [= <-].
  - destruct (Register c s) as [[] s1|v1 s1] eqn:HR; [|done].
    intros HA. rewrite (IH s1 HA).
    by destruct (Register_ok c s s1 HR) as (_ & E & _).
Qed.

(** X9.  After a set-up by [Register] that did not panic, the servlets of
    the server are the ones it had followed by the registered components
    that are servlets, in the order of registration; the options and the
    exit channel are the same.  A set-up that panics has registered the
    servlets of the components before the one whose mount panicked, and
    not the servlet of that one. *)
Theorem Register_all_servlets cs s :
  (forall s',
     Register_all cs s = Return tt s' ->
     servs s' = servs s ++ omap as_Servlet cs /\
     opts s' = opts s /\ exit s' = exit s) /\
  (forall v s',
     Register_all cs s = Panic v s' ->
     exists done c rest,
       cs = done ++ c :: rest /\
       servs s' = servs s ++ omap as_Servlet done /\
       opts s' = opts s /\ exit s' = exit s).
Proof.
  revert s. induction cs as [|c cs IH]; intros s; simpl.
  - split; [|done]. intros s' [= <-]. by rewrite app_nil_r.
  - destruct (Register c s) as [[] s1|v1 s1] eqn:HR.
    + destruct (Register_ok c s s1 HR) as (E1 & E2 & E3).
      assert (forall l, servs s1 ++ omap as_Servlet l =
                        servs s ++ omap as_Servlet (c :: l)) as Hl.
      { intros l. rewrite E1. cbn [omap list_omap].
        destruct (as_Servlet c); simpl; rewrite <- ?app_assoc, ?app_nil_r;
          reflexivity. }
      destruct (IH s1) as [IHok IHpanic]. split.
      * intros s' HA. destruct (IHok s' HA) as (F1 & F2 & F3).
        by rewrite F1, F2, F3, E2, E3, Hl.
      * intros v s' HA.
        destruct (IHpanic v s' HA) as (done & c' & rest & -> & F1 & F2 & F3).
        exists (c :: done), c', rest.
        by rewrite F1, F2, F3, E2, E3, Hl.
    + split; [done|]. intros v s' [= <- <-].
      destruct (Register_panic c s v1 s1 HR) as (E1 & E2 & E3).
      exists [], c, cs. simpl. by rewrite app_nil_r.
Qed.

(** X10.  Components made by [NewComponent] are no servlets: registering
    any number of them, at any prefixes, leaves the servlets of the server
    as they were. *)
Theorem NewComponent_no_servlet (l : list (MuxT * string)) s s' :
  Register_all ((fun mp => NewComponent mp.1 mp.2) <$> l) s = Return tt s' ->
  servs s' = servs s.
Proof.
  revert s. induction l as [|[m p] l IH]; intros s; simpl.
  - by intros [= <-].
  - destruct (Register (NewComponent m p) s) as [[] s1|v1 s1] eqn:HR;
      [|done].
    intros HA. rewrite (IH s1 HA).
    destruct (Register_ok _ s s1 HR) as (E1 & _).
    rewrite E1. simpl. by rewrite app_nil_r.
Qed.

Lemma Start_returns ctx s σ : exists r σ', Start ctx s σ = Return r σ'.
Proof.
  destruct (SplitHostPort (Addr (opts s))) as [[host port] [e|]] eqn:Haddr.
  { unfold Start. rewrite Haddr. eauto. }
  destruct (start_all_cases ctx (servs s) (world σ))
    as [[w' Hw']|(ok & f & post & w1 & e & w2 & Hs & Hok & Hf)].
  - rewrite (Start_ok _ _ _ _ _ _ Haddr Hw'). eauto.
  - rewrite (Start_fail _ _ _ _ _ _ _ _ _ _ _ Haddr Hs Hok Hf). eauto.
Qed.

(** X11.  [Start] never panics: the index of its rollback loop stays in
    range.  It returns nil exactly when the address splits and every
    servlet starts, and then it has called [Start] on every servlet once,
    in the order of registration and with the context of the caller, has
    stopped none, has logged nothing and has left one coordinator at its
    receive, with a context of its own that has no deadline. *)
Theorem Start_nil_iff ctx s σ :
  (exists r σ', Start ctx s σ = Return r σ') /\
  forall σ',
    Start ctx s σ = Return None σ' <->
    (SplitHostPort (Addr (opts s))).2 = None /\
    exists w',
      start_all ctx (servs s) (world σ) = Some w' /\
      σ' =
      mkState w'
        (calls σ ++
         ((fun j => call_Start j ctx) <$> seq 0 (length (servs s))) ++
         [call_ListenAndServe (server_of s σ)])
        (stdlog σ)
        (coordinators σ ++ [CoRecv (exit s) (server_of s σ) (lctx_of σ)])
        (stoppers σ) (S (next_id σ)) /\
      Deadline (lctx_of σ) = None.
Proof.
  split; [apply Start_returns|]. intros σ'. split.
  - intros HS. split.
    + unfold Start in HS.
      by destruct (SplitHostPort (Addr (opts s))) as [[host port] [e|]].
    + destruct (Start_nil_inv _ _ _ _ HS) as (w' & Hw' & ->). eauto.
  - intros [Haddr (w' & Hw' & -> & _)].
    destruct (SplitHostPort (Addr (opts s))) as [[host port] e] eqn:E.
    simpl in Haddr. subst e. by apply (Start_ok _ _ _ host port).
Qed.

Lemma Start_error_threads ctx s σ e σ1 :
  Start ctx s σ = Return (Some e) σ1 ->
  coordinators σ1 = coordinators σ /\ stoppers σ1 = stoppers σ.
Proof.
  intros HS.
  destruct (SplitHostPort (Addr (opts s))) as [[host port] [e'|]] eqn:Haddr.
  { unfold Start in HS. rewrite Haddr in HS. by injection HS as _ <-. }
  destruct (start_all_cases ctx (servs s) (world σ))
    as [[w' Hw']|(ok & f & post & w1 & e' & w2 & Hs & Hok & Hf)].
  - by rewrite (Start_ok _ _ _ _ _ _ Haddr Hw') in HS.
  - rewrite (Start_fail _ _ _ _ _ _ _ _ _ _ _ Haddr Hs Hok Hf) in HS.
    by injection HS as _ <-.
Qed.

Lemma Stop_blocks s σ ctx σ' :
  no_receiver σ ->
  rtc (step s) (Stop ctx σ) σ' ->
  exists t, stoppers σ' !! length (stoppers σ) = Some t /\ waiting t.
Proof.
  intros Hno Hrun.
  destruct (waiting_forever s (Stop ctx σ) σ' (length (stoppers σ))
              (StMake ctx)) as (_ & t & Ht & Hw); [done| |exact I|done|eauto].
  simpl. by rewrite list_lookup_middle.
Qed.

(** X12.  [Stop] needs a successful [Start]: in a process where no
    coordinator waits, a call of [Stop] never returns, in no run, and an
    unsuccessful [Start] does not change that, as it leaves no goroutine
    behind.  So [Stop] after a [Start] that returned an error hangs. *)
Theorem Stop_after_failed_Start ctx0 s σ0 e σ1 :
  no_receiver σ0 ->
  Start ctx0 s σ0 = Return (Some e) σ1 ->
  coordinators σ1 = coordinators σ0 /\ stoppers σ1 = stoppers σ0 /\
  forall ctx σ2,
    rtc (step s) (Stop ctx σ1) σ2 ->
    exists t,
      stoppers σ2 !! length (stoppers σ1) = Some t /\ waiting t /\
      forall r, t <> StReturned r.
Proof.
  intros Hno HS. destruct (Start_error_threads _ _ _ _ _ HS) as [Hco Hst].
  repeat split; [done..|]. intros ctx σ2 Hrun.
  destruct (Stop_blocks s σ1 ctx σ2) as (t & Ht & Hw); [|done|].
  - intros j ch server lctx. rewrite Hco. apply Hno.
  - exists t. repeat split; [done..|]. by intros r ->.
Qed.

(** X13.  A server made by [New] without options has the empty address,
    and registering components does not change it: its [Start] fails with
    the missing-port error of the address split and calls no servlet. *)
Theorem New_without_options_cannot_start mux σ cs s ctx σ' :
  Register_all cs (New mux [] σ).1 = Return tt s ->
  Start ctx s σ' =
  Return (Some (AddrError "missing port in address" "")) σ'.
Proof.
  intros HR. apply Register_all_opts in HR.
  unfold Start. by rewrite HR.
Qed.

(** X14.  A successful [Start] followed by one call of [Stop] that
    returns: every servlet was started once, in the order of
    registration, before the engine began to listen, and stopped once, in
    the reverse order, before the engine was shut down; [Stop] returns
    what [Shutdown] returned in the world the last servlet stop left. *)
Theorem Start_then_Stop ctx0 ctx s σ0 σ1 σ2 r :
  coordinators σ0 = [] -> stoppers σ0 = [] ->
  Start ctx0 s σ0 = Return None σ1 ->
  rtc (step s) (Stop ctx σ1) σ2 ->
  stoppers σ2 !! 0%nat = Some (StReturned r) ->
  let n := length (servs s) in
  let server := server_of s σ0 in
  let lctx := lctx_of σ0 in
  let made :=
    ((fun j => call_Start j ctx0) <$> seq 0 n) ++
    [call_ListenAndServe server] ++
    (call_Stop <$> rev (seq 0 n)) ++
    [call_Shutdown server lctx; call_cancel lctx] in
  exists w',
    start_all ctx0 (servs s) (world σ0) = Some w' /\
    calls σ2 = calls σ0 ++ made /\
    world σ2 =
    (Shutdown server lctx (stop_all (rev (servs s)) w').1).2 /\
    r = (Shutdown server lctx (stop_all (rev (servs s)) w').1).1 /\
    forall j,
      starts_of j made = (if bool_decide (j < n)%nat then 1 else 0)%nat /\
      stops_of j made = (if bool_decide (j < n)%nat then 1 else 0)%nat.
Proof.
  intros Hco Hst HS Hrun Hr n server lctx made.
  destruct (Start_started _ _ _ _ Hco Hst HS) as [Hb _].
  assert (σ2 = st_final s σ1 server lctx) as ->.
  { apply (path_returned s σ1 ctx _ _ σ2 r); [done| |done].
    by apply path_reachable. }
  destruct (Start_nil_inv _ _ _ _ HS) as (w' & Hw' & ->).
  assert (forall j,
            starts_of j made = (if bool_decide (j < n)%nat then 1 else 0)%nat
            /\
            stops_of j made = (if bool_decide (j < n)%nat then 1 else 0)%nat)
    as Hcount.
  { intros j. subst made. split.
    - rewrite !starts_of_app, starts_of_Starts, starts_of_Stops.
      unfold starts_of at 1 2. simpl. repeat case_bool_decide; lia.
    - rewrite !stops_of_app, stops_of_Starts, fmap_rev, stops_of_rev,
        stops_of_Stops.
      unfold stops_of at 1 2. simpl. repeat case_bool_decide; lia. }
  exists w'. simpl in Hr. injection Hr as <-.
  repeat split; try done.
  - subst made. simpl. by rewrite <- !app_assoc.
  - apply Hcount.
  - apply Hcount.
Qed.

(** *** Calls of [Stop] and coordinators are paired *)











(** *** A call of [Stop] that finds a coordinator *)

Lemma stops_run s j ex server lctx n σ :
  (n <= length (servs s))%nat ->
  coordinators σ !! j = Some (CoStops n ex server lctx) ->
  exists σ',
    rtc (step s) σ σ' /\
    coordinators σ' = <[j:=CoStops 0 ex server lctx]> (coordinators σ) /\
    stoppers σ' = stoppers σ.
Proof.
  revert σ. induction n as [|n IH]; intros σ Hn Hj.
  - exists σ. split; [done|]. split; [|done]. by rewrite list_insert_id.
  - destruct (do_Stop s n σ) as [σ1|] eqn:Hdo.
    + destruct (do_Stop_threads _ _ _ _ Hdo) as [Eco Est].
      pose proof (step_stop s j n ex server lctx σ σ1 Hj Hdo) as Hstep.
      set (σ2 := mkState _ _ _ _ _ _) in Hstep.
      destruct (IH σ2) as (σ' & Hrun & Hco & Hst); [lia| |].
      * subst σ2. simpl. rewrite Eco. apply list_lookup_insert_eq.
        by eapply lookup_lt_Some.
      * exists σ'. split; [by eapply rtc_l|]. subst σ2. simpl in *.
        by rewrite Hco, Hst, Eco, Est, list_insert_insert_eq.
    + unfold do_Stop in Hdo.
      destruct (lookup_lt_is_Some_2 (servs s) n) as [serv Hserv]; [lia|].
      rewrite Hserv in Hdo.
      by destruct (Servlet.Stop serv (world σ)) as [[e|] w].
Qed.

(** X16.  Whenever a coordinator of the server waits at its receive, in a
    process with any number of other coordinators and callers, a call of
    [Stop] can be served and return: there is a run to a state where this
    caller has returned.  So after [Start] has succeeded twice, two calls
    of [Stop] can both return. *)
Theorem Stop_can_return s σ j server lctx ctx :
  coordinators σ !! j = Some (CoRecv (exit s) server lctx) ->
  exists σ' r,
    rtc (step s) (Stop ctx σ) σ' /\
    stoppers σ' !! length (stoppers σ) = Some (StReturned r).
Proof.
  intros Hj. set (k := length (stoppers σ)).
  assert (k < length (stoppers σ ++ [StMake ctx]))%nat as Hk.
  { rewrite length_app. simpl. lia. }
  assert (stoppers (Stop ctx σ) !! k = Some (StMake ctx)) as Hmake.
  { simpl. by rewrite list_lookup_middle. }
  pose proof (step_make s k ctx (Stop ctx σ) Hmake) as Hs1.
  set (σb := mkState _ _ _ _ _ _) in Hs1.
  assert (stoppers σb !! k = Some (StSend ctx (exit s) (next_id σ))) as Hsend.
  { subst σb. simpl. by apply list_lookup_insert_eq. }
  pose proof (step_handoff s k j ctx (exit s) (next_id σ) server lctx σb
                Hsend Hj) as Hs2.
  set (σc := mkState _ _ _ _ _ _) in Hs2.
  assert (j < length (coordinators σ))%nat as Hjlt
    by by eapply lookup_lt_Some.
  destruct (stops_run s j (next_id σ) server lctx (length (servs s)) σc)
    as (σd & Hrun & Hco & Hst); [done| |].
  { subst σc. simpl. by apply list_lookup_insert_eq. }
  assert (coordinators σd !! j =
          Some (CoStops 0 (next_id σ) server lctx)) as Hj0.
  { rewrite Hco. apply list_lookup_insert_eq.
    subst σc. simpl. by rewrite length_insert. }
  pose proof (step_shutdown s j (next_id σ) server lctx σd Hj0) as Hs3.
  set (σe := mkState _ _ _ _ _ _) in Hs3.
  assert (stoppers σe !! k = Some (StRecv ctx (next_id σ))) as Hrecv.
  { subst σe. simpl. rewrite Hst. subst σc. simpl.
    apply list_lookup_insert_eq. subst σb. simpl.
    by rewrite length_insert. }
  assert (coordinators σe !! j =
          Some (CoSend (next_id σ)
                  (Shutdown server lctx (world σd)).1 lctx)) as Hjs.
  { subst σe. simpl. apply list_lookup_insert_eq.
    rewrite Hco, length_insert. subst σc. simpl. by rewrite length_insert. }
  pose proof (step_reply s j k (next_id σ) _ lctx ctx σe Hjs Hrecv) as Hs4.
  set (σf := mkState _ _ _ _ _ _) in Hs4.
  exists σf, (Shutdown server lctx (world σd)).1. split.
  - eapply rtc_l; [exact Hs1|]. eapply rtc_l; [exact Hs2|].
    eapply rtc_trans; [exact Hrun|].
    eapply rtc_l; [exact Hs3|]. by apply rtc_once.
  - subst σf. simpl. apply list_lookup_insert_eq.
    by eapply lookup_lt_Some.
Qed.

End WithEnv.

Import Lifecycle Setup.

Lemma Register_all_servlets_witness :
  servs bare_set_up = servs bare ++ [mock "db" None None] /\
  opts bare_set_up = opts bare /\ exit bare_set_up = exit bare.
Proof.
  refine (proj1 (@Register_all_servlets env engine [api; db] bare)
            bare_set_up _).
  reflexivity.
Defined.

Lemma NewComponent_no_servlet_witness :
  servs (@mkServer env (@mkOptions env ":8094" tt) tt
           [mock "1" None None;
            mock "2" None (Some (errorString "stop 2 failed"));
            mock "3" None None] 0%nat) =
  servs s123.
Proof.
  refine (@NewComponent_no_servlet env engine [(tt, "/api"); (tt, "/admin")]
            s123 _ _).
  reflexivity.
Defined.

Lemma Start_nil_iff_witness :
  (SplitHostPort (Addr (opts s123))).2 = None /\
  exists w',
    start_all Background (servs s123) (world fresh) = Some w' /\
    started123 =
    mkState w'
      (calls fresh ++
       ((fun j => call_Start j Background) <$> seq 0 (length (servs s123))) ++
       [call_ListenAndServe (server_of s123 fresh)])
      (stdlog fresh)
      (coordinators fresh ++
       [CoRecv (exit s123) (server_of s123 fresh) (lctx_of fresh)])
      (stoppers fresh) (S (next_id fresh)) /\
    Deadline (lctx_of fresh) = None.
Proof.
  refine (proj1 (proj2 (@Start_nil_iff env Background s123 fresh)
                   started123) _).
  reflexivity.
Defined.

Lemma Stop_after_failed_Start_witness :
  exists t,
    stoppers (Stop Background failed) !! length (stoppers failed) = Some t /\
    waiting t /\ forall r, t <> StReturned r.
Proof.
  refine (proj2 (proj2 (@Stop_after_failed_Start env engine Background abc
                          fresh boom failed _ _))
            Background (Stop Background failed) _).
  - intros j ch server lctx. by destruct j.
  - reflexivity.
  - reflexivity.
Defined.

Lemma New_without_options_cannot_start_witness :
  @Start env Background bare_set_up fresh =
  Return (Some (AddrError "missing port in address" "")) fresh.
Proof.
  refine (@New_without_options_cannot_start env engine tt fresh [api; db]
            bare_set_up Background fresh _).
  reflexivity.
Defined.

Lemma Start_then_Stop_witness :
  exists w',
    start_all Background (servs s123) (world fresh) = Some w' /\
    calls final123 =
    calls fresh ++
    ((fun j => call_Start j Background) <$> seq 0 3) ++
    [call_ListenAndServe (server_of s123 fresh)] ++
    (call_Stop <$> rev (seq 0 3)) ++
    [call_Shutdown (server_of s123 fresh) (lctx_of fresh);
     call_cancel (lctx_of fresh)] /\
    world final123 =
    (@Shutdown env engine (server_of s123 fresh) (lctx_of fresh)
       (stop_all (rev (servs s123)) w').1).2 /\
    None =
    (@Shutdown env engine (server_of s123 fresh) (lctx_of fresh)
       (stop_all (rev (servs s123)) w').1).1.
Proof.
  destruct (@Start_then_Stop env engine Background Background s123 fresh
              started123 final123 None eq_refl eq_refl eq_refl)
    as (w' & H1 & H2 & H3 & H4 & _).
  - apply (path_to_final s123 started123 Background (server_of s123 fresh)
             (lctx_of fresh)); [by split|constructor].
  - reflexivity.
  - exists w'. eauto.
Defined.


Lemma Stop_can_return_witness :
  exists σ' r,
    rtc (@step env engine s123) (Stop Background twice) σ' /\
    stoppers σ' !! length (stoppers twice) = Some (StReturned r).
Proof.
  refine (@Stop_can_return env engine s123 twice 1
            (server_of s123 once) (lctx_of once) Background _).
  reflexivity.
Defined.

End ServerMore.

(** ** Addresses that [Start] accepts *)

Module AddressFacts.
Import Address Server ServerFacts MuxFacts.

Lemma free_of_cons c a s : free_of c (String a s) <-> a <> c /\ free_of c s.
Proof.
  unfold free_of. split.
  - intros Hf. split.
    + intros ->. by apply (Hf 0%nat).
    + intros n. apply (Hf (S n)).
  - intros [Ha Hs] [|n]; simpl; [congruence|apply Hs].
Qed.

Lemma free_of_app c s t : free_of c s -> free_of c t -> free_of c (s +:+ t).
Proof.
  intros Hs Ht. induction s as [|a s IH]; [done|].
  apply free_of_cons in Hs as [Ha Hs].
  change (free_of c (String a (s +:+ t))). apply free_of_cons. auto.
Qed.

Lemma Index_free c s : free_of c s -> IndexByteString s c = -1.
Proof.
  induction s as [|a s IH]; [done|].
  intros [Ha Hs]%free_of_cons. simpl.
  destruct (Ascii.eqb_spec a c); [done|]. by rewrite IH.
Qed.

Lemma LastIndex_free c s : free_of c s -> LastIndexByteString s c = -1.
Proof.
  induction s as [|a s IH]; [done|].
  intros [Ha Hs]%free_of_cons. simpl. rewrite IH by done. simpl.
  by destruct (Ascii.eqb_spec a c).
Qed.

Lemma LastIndex_app c h p :
  free_of c p ->
  LastIndexByteString (h +:+ String c p) c = Z.of_nat (String.length h).
Proof.
  intros Hp. induction h as [|a h IH].
  - change (LastIndexByteString (String c p) c = 0). simpl.
    rewrite LastIndex_free by done. simpl. by rewrite Ascii.eqb_refl.
  - change (LastIndexByteString (String a (h +:+ String c p)) c =
            Z.of_nat (S (String.length h))).
    simpl LastIndexByteString. rewrite IH.
    destruct (0 <=? Z.of_nat (String.length h)) eqn:E; lia.
Qed.

Lemma substring_all s : String.substring 0 (String.length s) s = s.
Proof. induction s as [|a s IH]; simpl; [done|]. by rewrite IH. Qed.

Lemma SplitHostPort_plain host port :
  plain host -> plain port ->
  SplitHostPort (host +:+ ":" +:+ port) = (host, port, None).
Proof.
  intros (Hh1 & Hh2 & Hh3) (Hp1 & Hp2 & Hp3).
  change (host +:+ ":" +:+ port) with (host +:+ String ":" port).
  set (hp := host +:+ String ":" port).
  assert (String.length hp = String.length host + S (String.length port))%nat
    as Hlen by (subst hp; by rewrite string_length_app).
  assert (free_of "[" hp) as H1.
  { apply free_of_app; [done|]. by apply free_of_cons. }
  assert (free_of "]" hp) as H2.
  { apply free_of_app; [done|]. by apply free_of_cons. }
  assert (byte_at hp 0 <> Some "["%char) as H0 by apply (H1 0%nat).
  assert (LastIndexByteString hp ":" = Z.of_nat (String.length host)) as HL.
  { subst hp. by apply LastIndex_app. }
  unfold SplitHostPort. cbv zeta. fold hp. rewrite !HL.
  destruct (Z.of_nat (String.length host) <? 0) eqn:E; [lia|].
  rewrite bool_decide_eq_false_2 by done.
  assert (slice hp 0 (Z.of_nat (String.length host)) = host) as ->.
  { unfold slice. rewrite Z.sub_0_r, Nat2Z.id. simpl.
    subst hp. apply substring_0_app. }
  rewrite (Index_free _ host) by done. change (0 <=? -1) with false.
  cbv beta iota.
  assert (slice hp 0 (Z.of_nat (String.length hp)) = hp) as ->.
  { unfold slice. rewrite Z.sub_0_r, Nat2Z.id. simpl.
    apply substring_all. }
  rewrite !Index_free by done. change (0 <=? -1) with false.
  cbv beta iota.
  assert (slice hp (Z.of_nat (String.length host) + 1)
            (Z.of_nat (String.length hp)) = port) as ->; [|done].
  unfold slice. rewrite Hlen.
  replace (Z.to_nat (Z.of_nat (String.length host) + 1))
    with (String.length (host +:+ ":")) by (rewrite string_length_app; simpl; lia).
  replace (Z.to_nat
             (Z.of_nat (String.length host + S (String.length port)) -
              (Z.of_nat (String.length host) + 1)))
    with (String.length port) by lia.
  subst hp.
  replace (host +:+ String ":" port) with ((host +:+ ":") +:+ port).
  - apply substring_app_drop.
  - clear. induction host as [|a h IH]; [done|].
    change (String a ((h +:+ ":") +:+ port) = String a (h +:+ String ":" port)).
    by rewrite IH.
Qed.

Section WithEnv.
Context `{Engine}.

(** X18.  An address of the form host, colon, port, with neither a colon
    nor a bracket in the host or in the port, passes the address check of
    [Start], which splits it back into that host and that port; [Start]
    then succeeds whenever every servlet starts. *)
Theorem Start_accepts_host_port ctx (s : Server) (σ : State) host port w' :
  plain host -> plain port ->
  Addr (opts s) = host +:+ ":" +:+ port ->
  start_all ctx (servs s) (world σ) = Some w' ->
  SplitHostPort (Addr (opts s)) = (host, port, None) /\
  exists σ', Start ctx s σ = Return None σ' /\ world σ' = w'.
Proof.
  intros Hh Hp Haddr Hall.
  assert (SplitHostPort (Addr (opts s)) = (host, port, None)) as HS.
  { rewrite Haddr. by apply SplitHostPort_plain. }
  split; [done|]. rewrite (Start_ok _ _ _ _ _ _ HS Hall). eauto.
Qed.

End WithEnv.

Lemma Start_accepts_host_port_witness :
  SplitHostPort "localhost:8084" = ("localhost", "8084", None) /\
  exists σ',
    @Start Lifecycle.env Background
      (@mkServer Lifecycle.env (@mkOptions Lifecycle.env "localhost:8084" tt)
         tt [] 0%nat) Lifecycle.fresh = Return None σ' /\
    world σ' = [].
Proof.
  refine (@Start_accepts_host_port Lifecycle.env Background
            (@mkServer Lifecycle.env
               (@mkOptions Lifecycle.env "localhost:8084" tt) tt [] 0%nat)
            Lifecycle.fresh "localhost" "8084" [] _ _ _ _).
  - repeat split; intros n; do 10 (destruct n as [|n]; [discriminate|]);
      discriminate.
  - repeat split; intros n; do 5 (destruct n as [|n]; [discriminate|]);
      discriminate.
  - reflexivity.
  - reflexivity.
Defined.

End AddressFacts.
